(** * TerminalProcess: lifecycle of one pty-backed terminal session

    A shallow embedding of
    [src/vs/workbench/parts/terminal/node/terminalProcess.ts].

    The class owns a pty handle, four event emitters and three timers
    (a one-shot that announces the process id, a recurring title poll and
    the re-armable close timeout).  Everything the class does is a reaction
    to a callback of the host: a pty event, a timer expiry or a call of one
    of its public methods.  The embedding therefore has three layers:

    - the host runtime ([setTimeout], [setInterval], [clearTimeout] and a
      discrete clock that runs the callbacks that fall due);
    - the class itself, one Rocq function per method or closure, written
      as a transformation of the [World];
    - the inputs a session can receive and the executions they produce.

    Calls that leave the class (a kill, write or resize of the pty, a fire
    of an emitter) are appended to an effect log, in program order.

    Time is discrete.  A timer set with delay [n] runs exactly [n] units
    later; the callbacks that fall due at the same instant run one after
    the other in the order of the queue, and each runs to its end before
    the next input is looked at, as on a single-threaded event loop.
    Numbers are integers. *)

From Stdlib Require Import List ZArith PArith String Bool Arith Lia.
Import ListNotations.

(** ** Events and effects *)

(** Payloads of the four event streams.  [_exitCode] is declared without an
    initialiser, so the exit payload is absent ([undefined]) until the pty
    has reported a code. *)
Inductive Event : Type :=
| Data (text : string)
| ExitCode (code : option Z)
| ProcessId (pid : Z)
| Title (title : string).

(** A subscription to one of the streams. *)
Definition Listener : Type := nat.

(** What the session does to its collaborators.  [Emit e rs] is one call of
    [fire] with payload [e]; [rs] lists the subscriptions whose callback ran
    (none when nobody listens or when the emitter is disposed). *)
Inductive Effect : Type :=
| Emit (e : Event) (receivers : list Listener)
| PtyKill
| PtyWrite (data : string)
| PtyResize (cols rows : Z).

(** ** Emitter *)

(** Modelled from the spec: the [Emitter] class of [vs/base/common/event]
    is imported by the source but is not part of it.  The spec describes a
    multicast stream with an explicit list of subscriber callbacks, where
    events fired before a subscription exists are dropped, and whose
    teardown unsubscribes everybody so that no further emission is
    possible. *)
Record Emitter : Type := mkEmitter {
  listeners : list Listener;
  disposed : bool
}.

Definition newEmitter : Emitter := mkEmitter [] false.

Definition subscribe (l : Listener) (em : Emitter) : Emitter :=
  if disposed em then em else mkEmitter (listeners em ++ [l]) false.

Definition receiversOf (em : Emitter) : list Listener :=
  if disposed em then [] else listeners em.

Definition fire (em : Emitter) (e : Event) : list Effect :=
  [Emit e (receiversOf em)].

Definition disposeEmitter (em : Emitter) : Emitter := mkEmitter [] true.

(** ** The pty handle *)

Record IPtyForkOptions : Type := mkOptions {
  name : string;
  cwd : string;
  env : list (string * string);
  cols : Z;
  rows : Z
}.

(** The part of node-pty's [IPty] the class reads: the pid and the current
    process title (a point-in-time read that the operating system changes
    behind the session's back), plus what it was spawned with. *)
Record IPty : Type := mkPty {
  pid : Z;
  process : string;
  file : string;
  argv : list string;
  options : IPtyForkOptions
}.

Record IShellLaunchConfig : Type := mkLaunch {
  executable : string;
  args : list string
}.

(** What the host decides at spawn time: the platform, [path.basename], the
    pid of the new process and its first title. *)
Record Host : Type := mkHost {
  os_platform : string;
  path_basename : string -> string;
  spawn_pid : Z;
  spawn_process : string
}.

Definition spawn (host : Host) (exe : string) (a : list string)
    (o : IPtyForkOptions) : IPty :=
  mkPty (spawn_pid host) (spawn_process host) exe a o.

(** ** Timers of the host runtime *)

Inductive Callback : Type :=
| SendProcessIdCb   (* () => this._sendProcessId()              *)
| TitlePollCb       (* the closure given to setInterval         *)
| CloseCb.          (* the closure given to setTimeout(..., 250) *)

(** Timer handles are positive, hence always truthy in [if (handle)]. *)
Record Timer : Type := mkTimer {
  handle : positive;
  due : nat;
  repeat : option nat;
  callback : Callback
}.

(** ** The class and its world *)

Record TerminalProcess : Type := mkSession {
  _exitCode : option Z;
  _closeTimeout : option positive;
  _ptyProcess : IPty;
  _currentTitle : string;
  _onProcessData : Emitter;
  _onProcessExit : Emitter;
  _onProcessIdReady : Emitter;
  _onProcessTitleChanged : Emitter
}.

Record World : Type := mkWorld {
  clock : nat;
  nextHandle : positive;
  timers : list Timer;
  this : TerminalProcess;
  log : list Effect
}.

(** Field updates. *)
Definition withTimers (f : list Timer -> list Timer) (w : World) : World :=
  mkWorld (clock w) (nextHandle w) (f (timers w)) (this w) (log w).

Definition withThis (f : TerminalProcess -> TerminalProcess) (w : World) : World :=
  mkWorld (clock w) (nextHandle w) (timers w) (f (this w)) (log w).

Definition emit (es : list Effect) (w : World) : World :=
  mkWorld (clock w) (nextHandle w) (timers w) (this w) (log w ++ es).

Definition set_exitCode (c : option Z) (s : TerminalProcess) : TerminalProcess :=
  mkSession c (_closeTimeout s) (_ptyProcess s) (_currentTitle s)
    (_onProcessData s) (_onProcessExit s) (_onProcessIdReady s)
    (_onProcessTitleChanged s).

Definition set_closeTimeout (h : option positive) (s : TerminalProcess) : TerminalProcess :=
  mkSession (_exitCode s) h (_ptyProcess s) (_currentTitle s)
    (_onProcessData s) (_onProcessExit s) (_onProcessIdReady s)
    (_onProcessTitleChanged s).

Definition set_ptyProcess (p : IPty) (s : TerminalProcess) : TerminalProcess :=
  mkSession (_exitCode s) (_closeTimeout s) p (_currentTitle s)
    (_onProcessData s) (_onProcessExit s) (_onProcessIdReady s)
    (_onProcessTitleChanged s).

Definition set_currentTitle (t : string) (s : TerminalProcess) : TerminalProcess :=
  mkSession (_exitCode s) (_closeTimeout s) (_ptyProcess s) t
    (_onProcessData s) (_onProcessExit s) (_onProcessIdReady s)
    (_onProcessTitleChanged s).

(** ** Host runtime: scheduling *)

Definition setTimeout (cb : Callback) (delay : nat) (w : World) : positive * World :=
  (nextHandle w,
   mkWorld (clock w) (Pos.succ (nextHandle w))
     (timers w ++ [mkTimer (nextHandle w) (clock w + delay) None cb])
     (this w) (log w)).

Definition setInterval (cb : Callback) (period : nat) (w : World) : positive * World :=
  (nextHandle w,
   mkWorld (clock w) (Pos.succ (nextHandle w))
     (timers w ++ [mkTimer (nextHandle w) (clock w + period) (Some period) cb])
     (this w) (log w)).

Definition hasHandle (h : positive) (t : Timer) : bool := Pos.eqb (handle t) h.

Definition clearTimeout (h : positive) (w : World) : World :=
  withTimers (filter (fun t => negb (hasHandle h t))) w.

(** ** Methods of the class *)

Definition _sendProcessId (w : World) : World :=
  emit (fire (_onProcessIdReady (this w))
             (ProcessId (pid (_ptyProcess (this w))))) w.

Definition _sendProcessTitle (w : World) : World :=
  let w1 := withThis (fun s => set_currentTitle (process (_ptyProcess s)) s) w in
  emit (fire (_onProcessTitleChanged (this w1))
             (Title (_currentTitle (this w1)))) w1.

Definition dispose (w : World) : World :=
  withThis (fun s =>
    mkSession (_exitCode s) (_closeTimeout s) (_ptyProcess s) (_currentTitle s)
      (disposeEmitter (_onProcessData s))
      (disposeEmitter (_onProcessExit s))
      (disposeEmitter (_onProcessIdReady s))
      (disposeEmitter (_onProcessTitleChanged s))) w.

(** Body of the closure that [_queueProcessExit] hands to [setTimeout]. *)
Definition onCloseTimeout (w : World) : World :=
  let w1 := emit [PtyKill] w in
  let w2 := emit (fire (_onProcessExit (this w1))
                       (ExitCode (_exitCode (this w1)))) w1 in
  dispose w2.

Definition _queueProcessExit (w : World) : World :=
  let w1 := match _closeTimeout (this w) with
            | Some h => clearTimeout h w
            | None => w
            end in
  let (h, w2) := setTimeout CloseCb 250 w1 in
  withThis (set_closeTimeout (Some h)) w2.

(** Listener registered with [_ptyProcess.on('data', ...)]. *)
Definition onPtyData (data : string) (w : World) : World :=
  let w1 := emit (fire (_onProcessData (this w)) (Data data)) w in
  match _closeTimeout (this w1) with
  | Some h => _queueProcessExit (clearTimeout h w1)
  | None => w1
  end.

(** Listener registered with [_ptyProcess.on('exit', ...)]. *)
Definition onPtyExit (code : Z) (w : World) : World :=
  _queueProcessExit (withThis (set_exitCode (Some code)) w).

(** Body of the closure that [_setupTitlePolling] hands to [setInterval]. *)
Definition onTitlePoll (w : World) : World :=
  if String.eqb (_currentTitle (this w)) (process (_ptyProcess (this w)))
  then w
  else _sendProcessTitle w.

Definition _setupTitlePolling (w : World) : World :=
  snd (setInterval TitlePollCb 200 (_sendProcessTitle w)).

Definition shutdown (w : World) : World := _queueProcessExit w.

Definition input (data : string) (w : World) : World :=
  emit [PtyWrite data] w.

Definition resize (c r : Z) (w : World) : World :=
  emit [PtyResize (Z.max c 1) (Z.max r 1)] w.

Definition constructor (host : Host) (shellLaunchConfig : IShellLaunchConfig)
    (cwd0 : string) (cols0 rows0 : Z) (env0 : list (string * string)) : World :=
  let shellName :=
    if String.eqb (os_platform host) "win32"
    then path_basename host (executable shellLaunchConfig)
    else "xterm-256color"%string in
  let opts := mkOptions shellName cwd0 env0 cols0 rows0 in
  let ptyProcess :=
    spawn host (executable shellLaunchConfig) (args shellLaunchConfig) opts in
  let w0 := mkWorld 0 1%positive []
              (mkSession None None ptyProcess EmptyString
                 newEmitter newEmitter newEmitter newEmitter) [] in
  let w1 := snd (setTimeout SendProcessIdCb 500 w0) in
  _setupTitlePolling w1.

(** ** Host runtime: the clock *)

Definition invoke (cb : Callback) (w : World) : World :=
  match cb with
  | SendProcessIdCb => _sendProcessId w
  | TitlePollCb => onTitlePoll w
  | CloseCb => onCloseTimeout w
  end.

Definition redue (h : positive) (d : nat) (t : Timer) : Timer :=
  if hasHandle h t then mkTimer (handle t) d (repeat t) (callback t) else t.

Definition reschedule (h : positive) (d : nat) (w : World) : World :=
  withTimers (map (redue h d)) w.

(** Runs the timer registered under handle [h], unless it was cleared
    meanwhile.  A one-shot leaves the queue; an interval is moved one period
    ahead. *)
Definition runTimer (w : World) (h : positive) : World :=
  match find (hasHandle h) (timers w) with
  | Some t =>
      let w1 := match repeat t with
                | None => clearTimeout h w
                | Some p => reschedule h (clock w + p) w
                end in
      invoke (callback t) w1
  | None => w
  end.

Definition advance (w : World) : World :=
  mkWorld (S (clock w)) (nextHandle w) (timers w) (this w) (log w).

Definition isDue (c : nat) (t : Timer) : bool := due t <=? c.

(** One unit of time passes; the timers due by then run in the order in
    which they were registered. *)
Definition tick (w : World) : World :=
  let w1 := advance w in
  fold_left runTimer (map handle (filter (isDue (clock w1)) (timers w1))) w1.

(** ** Inputs and executions *)

Inductive Stream : Type :=
| OnProcessData
| OnProcessExit
| OnProcessIdReady
| OnProcessTitleChanged.

Definition subscribeTo (st : Stream) (l : Listener) (s : TerminalProcess) : TerminalProcess :=
  match st with
  | OnProcessData =>
      mkSession (_exitCode s) (_closeTimeout s) (_ptyProcess s) (_currentTitle s)
        (subscribe l (_onProcessData s)) (_onProcessExit s)
        (_onProcessIdReady s) (_onProcessTitleChanged s)
  | OnProcessExit =>
      mkSession (_exitCode s) (_closeTimeout s) (_ptyProcess s) (_currentTitle s)
        (_onProcessData s) (subscribe l (_onProcessExit s))
        (_onProcessIdReady s) (_onProcessTitleChanged s)
  | OnProcessIdReady =>
      mkSession (_exitCode s) (_closeTimeout s) (_ptyProcess s) (_currentTitle s)
        (_onProcessData s) (_onProcessExit s)
        (subscribe l (_onProcessIdReady s)) (_onProcessTitleChanged s)
  | OnProcessTitleChanged =>
      mkSession (_exitCode s) (_closeTimeout s) (_ptyProcess s) (_currentTitle s)
        (_onProcessData s) (_onProcessExit s)
        (_onProcessIdReady s) (subscribe l (_onProcessTitleChanged s))
  end.

Definition retitle (t : string) (p : IPty) : IPty :=
  mkPty (pid p) t (file p) (argv p) (options p).

Inductive Input : Type :=
| PtyData (data : string)           (* the pty delivers a chunk of output   *)
| PtyExit (code : Z)                (* the pty reports that the process exited *)
| PtyProcess (title : string)       (* the foreground process title changes *)
| CallShutdown
| CallInput (data : string)
| CallResize (c r : Z)
| CallDispose
| Subscribe (st : Stream) (l : Listener)
| Elapse (dt : nat).

Definition step (w : World) (i : Input) : World :=
  match i with
  | PtyData d => onPtyData d w
  | PtyExit c => onPtyExit c w
  | PtyProcess t => withThis (fun s => set_ptyProcess (retitle t (_ptyProcess s)) s) w
  | CallShutdown => shutdown w
  | CallInput d => input d w
  | CallResize c r => resize c r w
  | CallDispose => dispose w
  | Subscribe st l => withThis (subscribeTo st l) w
  | Elapse dt => Nat.iter dt tick w
  end.

Definition run (ins : list Input) (w : World) : World := fold_left step ins w.

(** A session is launched with the constructor's arguments on some host. *)
Record Launch : Type := mkLaunchArgs {
  l_host : Host;
  l_config : IShellLaunchConfig;
  l_cwd : string;
  l_cols : Z;
  l_rows : Z;
  l_env : list (string * string)
}.

Definition boot (a : Launch) : World :=
  constructor (l_host a) (l_config a) (l_cwd a) (l_cols a) (l_rows a) (l_env a).

Definition execution (a : Launch) (ins : list Input) : World := run ins (boot a).

(** ** Reading the effect log *)

Definition isExit (x : Effect) : bool :=
  match x with Emit (ExitCode _) _ => true | _ => false end.

Definition isData (x : Effect) : bool :=
  match x with Emit (Data _) _ => true | _ => false end.

Definition isPidEmit (x : Effect) : bool :=
  match x with Emit (ProcessId _) _ => true | _ => false end.

Definition isTitleEmit (x : Effect) : bool :=
  match x with Emit (Title _) _ => true | _ => false end.

Definition isKill (x : Effect) : bool :=
  match x with PtyKill => true | _ => false end.

(** An emission reached at least one subscriber. *)
Definition delivered (x : Effect) : bool :=
  match x with Emit _ (_ :: _) => true | _ => false end.

Definition deliveredExit (x : Effect) : bool := isExit x && delivered x.
Definition deliveredData (x : Effect) : bool := isData x && delivered x.

(** The events one subscription has received, oldest first. *)
Definition observed (l : Listener) (tr : list Effect) : list Event :=
  flat_map (fun x => match x with
                     | Emit e rs => if existsb (Nat.eqb l) rs then [e] else []
                     | _ => []
                     end) tr.

Definition isExitEvent (e : Event) : bool :=
  match e with ExitCode _ => true | _ => false end.

Definition isDataEvent (e : Event) : bool :=
  match e with Data _ => true | _ => false end.

(** Data chunks, exit notifications and kills: the part of the log the
    debounce is about. *)
Definition core (tr : list Effect) : list Effect :=
  filter (fun x => isData x || isExit x || isKill x) tr.

(** After an exit was emitted, nothing reaches a subscriber any more. *)
Fixpoint silentAfterExit (tr : list Effect) : bool :=
  match tr with
  | [] => true
  | x :: r => (if isExit x then negb (existsb delivered r) else true)
              && silentAfterExit r
  end.

Definition allDisposed (s : TerminalProcess) : bool :=
  disposed (_onProcessData s) && disposed (_onProcessExit s)
  && disposed (_onProcessIdReady s) && disposed (_onProcessTitleChanged s).

(** Invariant that orders exit against everything else. *)
Definition exitSeals (w : World) : Prop :=
  silentAfterExit (log w) = true /\
  (existsb isExit (log w) = true -> allDisposed (this w) = true).

(** What one callback may do to the log and the emitters, as far as the
    order of exit is concerned: it appends a segment; on a session whose
    emitters are all disposed the segment reaches nobody and the emitters
    stay disposed; and an exit emission, if there is one, is the last entry
    of the segment and leaves all emitters disposed. *)
Definition exitStep (w w' : World) : Prop :=
  exists seg, log w' = log w ++ seg /\
    (allDisposed (this w) = true ->
       allDisposed (this w') = true /\ existsb delivered seg = false) /\
    (existsb isExit seg = false \/
     (allDisposed (this w') = true /\
      exists s1 x, seg = s1 ++ [x] /\ existsb isExit s1 = false)).

(** ** Reading the timer queue *)

Definition sameCallback (a b : Callback) : bool :=
  match a, b with
  | SendProcessIdCb, SendProcessIdCb => true
  | TitlePollCb, TitlePollCb => true
  | CloseCb, CloseCb => true
  | _, _ => false
  end.

Definition ofKind (c : Callback) (t : Timer) : bool := sameCallback (callback t) c.

Definition closeTimers (w : World) : list Timer := filter (ofKind CloseCb) (timers w).

(** The queue after [clearTimeout] of a stored handle, if one is stored. *)
Definition cleared (o : option positive) (ts : list Timer) : list Timer :=
  match o with
  | Some h => filter (fun t => negb (hasHandle h t)) ts
  | None => ts
  end.

(** How handles are used.  The constructor takes handles 1 and 2 for the
    pid timer and the title poll; every later handle belongs to a close
    timeout, and a close timeout still in the queue is the one stored in
    [_closeTimeout]. *)
Record timersOk (w : World) : Prop := mkTimersOk {
  ok_next : (3 <= nextHandle w)%positive;
  ok_stored : forall h, _closeTimeout (this w) = Some h ->
                (3 <= h < nextHandle w)%positive;
  ok_close : forall t, In t (timers w) -> ofKind CloseCb t = true ->
               _closeTimeout (this w) = Some (handle t) /\ repeat t = None;
  ok_other : forall t, In t (timers w) -> ofKind CloseCb t = false ->
               (handle t < 3)%positive;
  ok_nodup : NoDup (map handle (timers w))
}.

(** Between two inputs every timer in the queue lies in the future. *)
Definition timersAhead (w : World) : Prop :=
  Forall (fun t => clock w < due t /\
                   match repeat t with Some p => 0 < p | None => True end)
         (timers w).

(** What running a timer other than the close timeout leaves alone. *)
Record calm (w w' : World) : Prop := mkCalm {
  calm_clock : clock w' = clock w;
  calm_next : nextHandle w' = nextHandle w;
  calm_close : closeTimers w' = closeTimers w;
  calm_code : _exitCode (this w') = _exitCode (this w);
  calm_stored : _closeTimeout (this w') = _closeTimeout (this w);
  calm_data : _onProcessData (this w') = _onProcessData (this w);
  calm_exit : _onProcessExit (this w') = _onProcessExit (this w);
  calm_ready : _onProcessIdReady (this w') = _onProcessIdReady (this w);
  calm_title : _onProcessTitleChanged (this w') = _onProcessTitleChanged (this w);
  calm_core : core (log w') = core (log w)
}.

(** The world [k] time units later, had no timer fallen due meanwhile. *)
Definition later (k : nat) (w : World) : World :=
  mkWorld (k + clock w) (nextHandle w) (timers w) (this w) (log w).

Definition pollTimers (w : World) : list Timer :=
  filter (ofKind TitlePollCb) (timers w).

Definition pidTimers (w : World) : list Timer :=
  filter (ofKind SendProcessIdCb) (timers w).

(** What a callback appends to the log, given the session it runs on. *)
Definition callbackEmits (cb : Callback) (s : TerminalProcess) : list Effect :=
  match cb with
  | SendProcessIdCb => fire (_onProcessIdReady s) (ProcessId (pid (_ptyProcess s)))
  | TitlePollCb =>
      if String.eqb (_currentTitle s) (process (_ptyProcess s)) then []
      else fire (_onProcessTitleChanged s) (Title (process (_ptyProcess s)))
  | CloseCb => [PtyKill] ++ fire (_onProcessExit s) (ExitCode (_exitCode s))
  end.

(** The title poll is always in the queue, under handle 2 and with period
    200, and is due within the next 200 units. *)
Definition titleOk (w : World) : Prop :=
  exists d, pollTimers w = [mkTimer 2 d (Some 200) TitlePollCb] /\
            d <= clock w + 200.

(** The pid is announced by the one-shot timer and by nothing else: either
    the timer is still in the queue and nothing was announced, or it is gone
    and the pid of the spawned process was announced once. *)
Definition pidOk (p : Z) (w : World) : Prop :=
  pid (_ptyProcess (this w)) = p /\
  ((pidTimers w = [mkTimer 1 500 None SendProcessIdCb] /\
    filter isPidEmit (log w) = []) \/
   (pidTimers w = [] /\
    exists rs, filter isPidEmit (log w) = [Emit (ProcessId p) rs])).

(** What running a timer other than the title poll leaves alone. *)
Record pollCalm (w w' : World) : Prop := mkPollCalm {
  pc_clock : clock w' = clock w;
  pc_poll : pollTimers w' = pollTimers w;
  pc_title : _currentTitle (this w') = _currentTitle (this w);
  pc_pty : _ptyProcess (this w') = _ptyProcess (this w);
  pc_log : filter isTitleEmit (log w') = filter isTitleEmit (log w)
}.

(** Everything that holds of a session between two inputs. *)
Record sessionOk (p : Z) (w : World) : Prop := mkSessionOk {
  so_timers : timersOk w;
  so_pid : pidOk p w;
  so_title : titleOk w;
  so_ahead : timersAhead w
}.

Definition resizeOk (x : Effect) : Prop :=
  match x with
  | PtyResize c r => (1 <= c /\ 1 <= r)%Z
  | _ => True
  end.

(** From [w] on nothing has reached a subscriber, and in [w'] all four
    emitters are disposed. *)
Definition silentSince (w w' : World) : Prop :=
  allDisposed (this w') = true /\
  exists seg, log w' = log w ++ seg /\ existsb delivered seg = false.

(** How the pty answers a call made on it, given what the session has done
    so far (the log holds the calls the pty has received): [None] when the
    call returns, [Some e] when it throws [e].  The pty library is not part
    of the class, so its answers are left open. *)
Definition PtyReaction : Type := list Effect -> Effect -> option string.

(** How a call of a public method ends.  No method of the class contains a
    throw statement or an exception handler, and none looks at the state of
    the session before it touches the pty: a call returns when the call on
    the pty inside it returns, and an error thrown by the pty leaves the
    method at once and reaches the caller unchanged.  Either way the pty
    has been called. *)
Inductive Outcome : Type :=
| Done (w : World)
| Raised (error : string) (w : World).

(** The call on the pty that is the body of [input] and of [resize]. *)
Definition ptyCallOf (i : Input) : option Effect :=
  match i with
  | CallInput d => Some (PtyWrite d)
  | CallResize c r => Some (PtyResize (Z.max c 1) (Z.max r 1))
  | _ => None
  end.

Definition call (pty : PtyReaction) (w : World) (i : Input) : Outcome :=
  match ptyCallOf i with
  | Some x =>
      match pty (log w) x with
      | Some e => Raised e (step w i)
      | None => Done (step w i)
      end
  | None => Done (step w i)
  end.

Definition worldAfter (o : Outcome) : World :=
  match o with Done w => w | Raised _ w => w end.

Definition errorOf (o : Outcome) : option string :=
  match o with Done _ => None | Raised e _ => Some e end.

(** ** Scenarios *)

(** A burst of trailing output: each chunk arrives [gap] time units after
    the previous event. *)
Definition burstInputs (burst : list (nat * string)) : list Input :=
  flat_map (fun gc => [Elapse (fst gc); PtyData (snd gc)]) burst.

Definition chunkEmits (em : Emitter) (burst : list (nat * string)) : list Effect :=
  map (fun gc => Emit (Data (snd gc)) (receiversOf em)) burst.

(** The close timeout is in the queue and will expire 250 units from now. *)
Definition armed (w : World) : Prop :=
  exists h, closeTimers w = [mkTimer h (clock w + 250) None CloseCb].

(** Inputs that neither re-arm the close timeout nor start it. *)
Definition quiet (i : Input) : bool :=
  match i with
  | PtyData _ | PtyExit _ | CallShutdown => false
  | _ => true
  end.

(** Time that passes during a list of inputs. *)
Fixpoint duration (ins : list Input) : nat :=
  match ins with
  | [] => 0
  | Elapse dt :: r => dt + duration r
  | _ :: r => duration r
  end.

(** ** Statements of the specification that the class does not meet

    Each is written down as the specification words it, to be tested on a
    concrete session. *)

(** Closing releases everything: besides the kill, the exit event and the
    disposal of the emitters, the title poll is cancelled. *)
Definition releasesEverything (w w' : World) : Prop :=
  core (log w')
  = core (log w) ++ [PtyKill; Emit (ExitCode (_exitCode (this w)))
                                   (receiversOf (_onProcessExit (this w)))] /\
  allDisposed (this w') = true /\
  pollTimers w' = [].

(** Callbacks of the host, as opposed to calls of the consumer. *)
Definition internal (i : Input) : bool :=
  match i with
  | PtyData _ | PtyExit _ | Elapse _ => true
  | _ => false
  end.

(** A closed session ignores every callback: no field of the session
    changes, no close timeout is queued, nothing is killed or emitted. *)
Definition absorbing (w : World) : Prop :=
  forall i, internal i = true ->
    this (step w i) = this w /\
    closeTimers (step w i) = closeTimers w /\
    log (step w i) = log w.

(** The pid is announced exactly once, it is positive, and every exit
    event is preceded by the announcement. *)
Definition pidBeforeExit (tr : list Effect) : Prop :=
  (exists p rs, filter isPidEmit tr = [Emit (ProcessId p) rs] /\ (0 < p)%Z) /\
  forall pre x post, tr = pre ++ x :: post -> isExit x = true ->
    existsb isPidEmit pre = true.

Definition reportsExit (i : Input) : bool :=
  match i with PtyExit _ => true | _ => false end.

(** What the session did after [w]. *)
Definition since (w w' : World) : list Effect :=
  skipn (List.length (log w)) (log w').

(** If the process does not exit by itself, then one debounce window and
    [eps] more after [shutdown] the process has been killed and exactly one
    exit event has been emitted. *)
Definition exitsWithin (eps : nat) (w : World) (window : list Input) : Prop :=
  existsb reportsExit window = false -> duration window = 250 + eps ->
  let w' := run (CallShutdown :: window) w in
  List.length (filter isExit (since w w')) = 1 /\
  existsb isKill (since w w') = true.

(** Output every 200 units, for twice the debounce window. *)
Definition chatter : list Input :=
  [Elapse 200; PtyData "$ "; Elapse 200; PtyData "$ "; Elapse 100].

Definition userCall (i : Input) : bool :=
  match i with CallInput _ | CallResize _ _ => true | _ => false end.

(** On a closed session [input] and [resize] either all do nothing or all
    raise an error. *)
Definition closedCallPolicy (pty : PtyReaction) (w : World) : Prop :=
  (forall i, userCall i = true -> call pty w i = Done w) \/
  (forall i, userCall i = true -> exists e w', call pty w i = Raised e w').

(** ** Concrete sessions *)

Definition host0 : Host := mkHost "linux" (fun s => s) 4242 "bash".

Definition launch0 : Launch :=
  mkLaunchArgs host0 (mkLaunch "/bin/bash" []) "/home" 80 24 [].

(** A consumer that listens to all four streams from the start. *)
Definition attach : list Input :=
  [Subscribe OnProcessData 1; Subscribe OnProcessExit 2;
   Subscribe OnProcessIdReady 3; Subscribe OnProcessTitleChanged 4].

(** The consumer shuts the session down at once; 249 units later the close
    timeout is about to expire, one unit later the session is closed. *)
Definition wPending : World := execution launch0 (attach ++ [CallShutdown; Elapse 249]).
Definition wClosed : World := execution launch0 (attach ++ [CallShutdown; Elapse 250]).

(** Two chunks of trailing output, the second one just in time. *)
Definition burst0 : list (nat * string) := [(100, "a"%string); (249, "b"%string)].

(** A pty that accepts writes at any time and refuses to be resized once it
    has been killed. *)
Definition killedPty : PtyReaction :=
  fun calls x =>
    match x with
    | PtyResize _ _ =>
        if existsb isKill calls then Some "resize of a killed pty"%string else None
    | _ => None
    end.


(** ** Logs and inputs side by side *)

(** What an input other than the passage of time appends to the log. *)
Definition stepEmits (w : World) (i : Input) : list Effect :=
  match i with
  | PtyData d => fire (_onProcessData (this w)) (Data d)
  | CallInput d => [PtyWrite d]
  | CallResize c r => [PtyResize (Z.max c 1) (Z.max r 1)]
  | _ => []
  end.

(** Texts written to the pty, and texts handed to [input]. *)
Definition written (x : Effect) : list string :=
  match x with PtyWrite d => [d] | _ => [] end.

Definition typed (i : Input) : list string :=
  match i with CallInput d => [d] | _ => [] end.

(** Dimensions the pty was resized to, and what [resize] was called with,
    clamped. *)
Definition resizedTo (x : Effect) : list (Z * Z) :=
  match x with PtyResize c r => [(c, r)] | _ => [] end.

Definition resizeAsked (i : Input) : list (Z * Z) :=
  match i with CallResize c r => [(Z.max c 1, Z.max r 1)] | _ => [] end.

(** Chunks emitted on the data stream, and chunks the pty delivered. *)
Definition relayed (x : Effect) : list string :=
  match x with Emit (Data d) _ => [d] | _ => [] end.

Definition chunk (i : Input) : list string :=
  match i with PtyData d => [d] | _ => [] end.

(** Payloads of the exit emissions. *)
Definition exitPayload (x : Effect) : list (option Z) :=
  match x with Emit (ExitCode c) _ => [c] | _ => [] end.

(** The code the pty reported last, if it reported one. *)
Definition lastExit (ins : list Input) : option Z :=
  fold_left (fun o i => match i with PtyExit c => Some c | _ => o end) ins None.

(** Titles published on the title stream. *)
Definition titled (x : Effect) : list string :=
  match x with Emit (Title t) _ => [t] | _ => [] end.

Fixpoint noRepeat (l : list string) : bool :=
  match l with
  | a :: (b :: _) as r => negb (String.eqb a b) && noRepeat r
  | _ => true
  end.

(** Kills and exit emissions. *)
Definition exitPath (tr : list Effect) : list Effect :=
  filter (fun x => isKill x || isExit x) tr.

Definition closing (p : option Z * list Listener) : list Effect :=
  [PtyKill; Emit (ExitCode (fst p)) (snd p)].

(** Inputs that start the close timeout, and inputs that restart it once it
    is started. *)
Definition triggers (i : Input) : bool :=
  match i with PtyExit _ | CallShutdown => true | _ => false end.

Definition rearms (i : Input) : bool :=
  match i with PtyData _ | PtyExit _ | CallShutdown => true | _ => false end.

(** Inputs, each preceded by the time that passes before it. *)
Definition spaced (evs : list (nat * Input)) : list Input :=
  flat_map (fun ge => [Elapse (fst ge); snd ge]) evs.

Definition codeAfter (o : option Z) (evs : list (nat * Input)) : option Z :=
  fold_left (fun o ge => match snd ge with PtyExit c => Some c | _ => o end) evs o.

(** A pending close timeout expires within the next 250 units. *)
Definition closeSoon (w : World) : Prop :=
  forall t, In t (closeTimers w) -> due t <= clock w + 250.
(** * Proofs *)

Ltac world w :=
  destruct w as [clk nh ts [ec ct pty cur [lD dD] [lE dE] [lI dI] [lT dT]] lg].

Ltac unfold_methods :=
  unfold onPtyData, onPtyExit, onTitlePoll, onCloseTimeout, shutdown, input,
    resize, dispose, _queueProcessExit, _sendProcessId, _sendProcessTitle,
    _setupTitlePolling, setTimeout, setInterval, clearTimeout, reschedule,
    withThis, withTimers, emit, fire, receiversOf, disposeEmitter, subscribeTo,
    subscribe, set_exitCode, set_closeTimeout, set_currentTitle,
    set_ptyProcess, allDisposed in *.

(** ** Lists *)

Lemma silent_of_undelivered (seg : list Effect) :
  existsb delivered seg = false -> silentAfterExit seg = true.
Proof.
  induction seg as [|x r IH]; simpl; intros H; [reflexivity|].
  apply orb_false_elim in H as [_ Hr].
  rewrite (IH Hr), Hr. destruct (isExit x); reflexivity.
Qed.

Lemma silent_app_undelivered (tr seg : list Effect) :
  silentAfterExit tr = true -> existsb delivered seg = false ->
  silentAfterExit (tr ++ seg) = true.
Proof.
  induction tr as [|x r IH]; simpl; intros H Hs.
  - now apply silent_of_undelivered.
  - apply andb_prop in H as [Hx Hr]. rewrite (IH Hr Hs), andb_true_r.
    destruct (isExit x); [|reflexivity].
    rewrite existsb_app, Hs, orb_false_r. exact Hx.
Qed.

Lemma silent_app_fresh (tr seg : list Effect) :
  existsb isExit tr = false -> silentAfterExit seg = true ->
  silentAfterExit (tr ++ seg) = true.
Proof.
  induction tr as [|x r IH]; simpl; intros H Hs; [exact Hs|].
  apply orb_false_elim in H as [Hx Hr]. rewrite Hx, (IH Hr Hs). reflexivity.
Qed.

Lemma silent_split (tr : list Effect) :
  silentAfterExit tr = true ->
  forall pre x post, tr = pre ++ x :: post -> isExit x = true ->
  existsb delivered post = false.
Proof.
  intros H pre; revert tr H.
  induction pre as [|y pre IH]; intros tr H x post -> Hx; simpl in H;
    apply andb_prop in H as [H1 H2].
  - rewrite Hx in H1. now apply negb_true_iff in H1.
  - eapply IH; eauto.
Qed.

(** ** Exit seals the session *)

Ltac seal H :=
  apply andb_prop in H as [H ?]; apply andb_prop in H as [H ?];
  apply andb_prop in H as [? ?].

Ltac no_segment := exists []; rewrite app_nil_r; split; [reflexivity|].
Ltac segment :=
  eexists; split; [cbn; rewrite <- ?app_assoc; reflexivity|].

Lemma exitStep_refl (w : World) : exitStep w w.
Proof. no_segment. split; [intros H; now split | now left]. Qed.

Lemma exitStep_seals (w w' : World) :
  exitStep w w' -> exitSeals w -> exitSeals w'.
Proof.
  intros (seg & Hlog & Hsealed & Hshape) [Hsil Hdis]. unfold exitSeals.
  rewrite Hlog, existsb_app.
  destruct (existsb isExit (log w)) eqn:Hex.
  - destruct (Hsealed (Hdis eq_refl)) as [Hd Hu]. split; [|now intros _].
    now apply silent_app_undelivered.
  - destruct Hshape as [Hno | (Hd & s1 & x & -> & Hs1)].
    + rewrite Hno. split; [|discriminate].
      apply silent_app_fresh; [exact Hex|].
      clear -Hno. induction seg as [|y r IH]; [reflexivity|]. simpl in *.
      apply orb_false_elim in Hno as [Hy Hr]. now rewrite Hy, IH.
    + split; [|now intros _].
      rewrite app_assoc. apply silent_app_fresh.
      * now rewrite existsb_app, Hex, Hs1.
      * simpl. now destruct (isExit x).
Qed.

Ltac sealed_case H := intros H; unfold_methods; cbn in *; seal H; subst; cbn; now split.

Lemma exitStep_onPtyData (d : string) (w : World) : exitStep w (onPtyData d w).
Proof.
  world w. unfold_methods; cbn. destruct ct; cbn; segment;
    (split; [sealed_case H | now left]).
Qed.

Lemma exitStep_queue (w : World) : exitStep w (_queueProcessExit w).
Proof.
  world w. unfold_methods; cbn. destruct ct; cbn; no_segment;
    (split; [sealed_case H | now left]).
Qed.

Lemma exitStep_onPtyExit (c : Z) (w : World) : exitStep w (onPtyExit c w).
Proof.
  world w. unfold_methods; cbn. destruct ct; cbn; no_segment;
    (split; [sealed_case H | now left]).
Qed.

Lemma exitStep_call (w : World) (es : list Effect) :
  existsb delivered es = false -> existsb isExit es = false ->
  exitStep w (emit es w).
Proof.
  intros Hd He. exists es. split; [reflexivity|]. split; [|now left].
  intros H. now split.
Qed.

Lemma exitStep_dispose (w : World) : exitStep w (dispose w).
Proof.
  world w. unfold_methods; cbn. no_segment. split; [now intros _ | now left].
Qed.

Lemma exitStep_subscribe (st : Stream) (l : Listener) (w : World) :
  exitStep w (withThis (subscribeTo st l) w).
Proof.
  world w. no_segment. split; [|now left].
  destruct st; sealed_case H.
Qed.

Lemma exitStep_retitle (t : string) (w : World) :
  exitStep w (withThis (fun s => set_ptyProcess (retitle t (_ptyProcess s)) s) w).
Proof.
  world w. no_segment. split; [sealed_case H | now left].
Qed.

Lemma exitStep_invoke (cb : Callback) (w : World) : exitStep w (invoke cb w).
Proof.
  world w. destruct cb; unfold invoke; unfold_methods; cbn.
  - segment. split; [sealed_case H | now left].
  - destruct (String.eqb cur (process pty)); [apply exitStep_refl|].
    segment. split; [sealed_case H | now left].
  - segment. split; [sealed_case H|].
    right. split; [reflexivity|]. now exists [PtyKill], (Emit (ExitCode ec) (if dE then [] else lE)).
Qed.

Lemma exitStep_runTimer (w : World) (h : positive) : exitStep w (runTimer w h).
Proof.
  unfold runTimer. destruct (find (hasHandle h) (timers w)) as [t|];
    [|apply exitStep_refl].
  destruct (repeat t).
  - exact (exitStep_invoke (callback t) (reschedule h (clock w + n) w)).
  - exact (exitStep_invoke (callback t) (clearTimeout h w)).
Qed.

(** Every property kept by each timer callback is kept by a tick. *)
Lemma tick_preserves (P : World -> Prop) (w : World) :
  P (advance w) ->
  (forall w' t, P w' -> P (runTimer w' t)) ->
  P (tick w).
Proof.
  intros Ha Hr. unfold tick.
  generalize (map handle (filter (isDue (clock (advance w))) (timers (advance w)))) as ds.
  generalize dependent (advance w).
  intros w1 H1 ds; revert w1 H1.
  induction ds as [|d ds IH]; intros w1 H1; simpl; auto.
Qed.

Lemma elapse_preserves (P : World -> Prop) (dt : nat) (w : World) :
  P w -> (forall w', P w' -> P (tick w')) -> P (Nat.iter dt tick w).
Proof. intros Hw Ht. induction dt as [|k IH]; simpl; auto. Qed.

Lemma exitSeals_tick (w : World) : exitSeals w -> exitSeals (tick w).
Proof.
  intros H. apply tick_preserves; [exact H|].
  intros w' t H'. exact (exitStep_seals _ _ (exitStep_runTimer w' t) H').
Qed.

Lemma exitSeals_step (w : World) (i : Input) : exitSeals w -> exitSeals (step w i).
Proof.
  intros H. destruct i; simpl.
  - exact (exitStep_seals _ _ (exitStep_onPtyData data w) H).
  - exact (exitStep_seals _ _ (exitStep_onPtyExit code w) H).
  - exact (exitStep_seals _ _ (exitStep_retitle title w) H).
  - exact (exitStep_seals _ _ (exitStep_queue w) H).
  - refine (exitStep_seals _ _ (exitStep_call w [PtyWrite data] _ _) H); reflexivity.
  - refine (exitStep_seals _ _ (exitStep_call w [PtyResize _ _] _ _) H); reflexivity.
  - exact (exitStep_seals _ _ (exitStep_dispose w) H).
  - exact (exitStep_seals _ _ (exitStep_subscribe st l w) H).
  - apply elapse_preserves; [exact H | exact exitSeals_tick].
Qed.

Lemma run_preserves (P : World -> Prop) (ins : list Input) (w : World) :
  P w -> (forall w' i, P w' -> P (step w' i)) -> P (run ins w).
Proof.
  intros Hw Hs. revert w Hw. unfold run.
  induction ins as [|i ins IH]; intros w Hw; simpl; auto.
Qed.

Lemma exitSeals_boot (a : Launch) : exitSeals (boot a).
Proof. split; [reflexivity | discriminate]. Qed.

Lemma exitSeals_execution (a : Launch) (ins : list Input) :
  exitSeals (execution a ins).
Proof.
  unfold execution.
  apply (run_preserves exitSeals); [apply exitSeals_boot | apply exitSeals_step].
Qed.

(** ** At most one exit, and no data after it *)

Lemma undelivered_not_observed (l : Listener) (tr : list Effect) :
  existsb delivered tr = false -> observed l tr = [].
Proof.
  induction tr as [|x r IH]; simpl; intros H; [reflexivity|].
  apply orb_false_elim in H as [Hx Hr]. rewrite (IH Hr), app_nil_r.
  destruct x as [e [|r0 rs]| | |]; try reflexivity. discriminate.
Qed.

Lemma undelivered_no_exit (tr : list Effect) :
  existsb delivered tr = false -> filter deliveredExit tr = [].
Proof.
  induction tr as [|x r IH]; simpl; intros H; [reflexivity|].
  apply orb_false_elim in H as [Hx Hr]. unfold deliveredExit at 1.
  now rewrite Hx, andb_false_r, IH.
Qed.

Lemma silent_exit_once (tr : list Effect) :
  silentAfterExit tr = true -> List.length (filter deliveredExit tr) <= 1.
Proof.
  induction tr as [|x r IH]; simpl; intros H; [lia|].
  apply andb_prop in H as [Hx Hr]. unfold deliveredExit at 1.
  destruct (isExit x); simpl; [|auto].
  apply negb_true_iff in Hx. rewrite (undelivered_no_exit _ Hx).
  destruct (delivered x); simpl; lia.
Qed.

Lemma undelivered_no_data (tr : list Effect) :
  existsb delivered tr = false -> existsb deliveredData tr = false.
Proof.
  induction tr as [|x r IH]; simpl; intros H; [reflexivity|].
  apply orb_false_elim in H as [Hx Hr]. unfold deliveredData at 1.
  now rewrite Hx, andb_false_r, IH.
Qed.

(** What one subscription sees: events other than exit, then at most one
    exit, then nothing. *)
Lemma silent_observed (l : Listener) (tr : list Effect) :
  silentAfterExit tr = true ->
  exists es last, observed l tr = es ++ last /\
    existsb isExitEvent es = false /\
    (last = [] \/ exists c, last = [ExitCode c]).
Proof.
  induction tr as [|x r IH]; simpl; intros H.
  - exists [], []. auto.
  - apply andb_prop in H as [Hx Hr].
    destruct (isExit x) eqn:Ex.
    + apply negb_true_iff in Hx.
      rewrite (undelivered_not_observed l _ Hx), app_nil_r.
      destruct x as [[?|c|?|?] rs| | |]; try discriminate.
      exists []. destruct (existsb (Nat.eqb l) rs); eexists; simpl; eauto.
    + destruct (IH Hr) as (es & last & Ho & He & Hl). rewrite Ho.
      destruct x as [[?|c|?|?] rs| | |]; try discriminate;
        try (exists es, last; now auto);
        (destruct (existsb (Nat.eqb l) rs);
         [eexists (_ :: es), last; simpl; now auto | exists es, last; now auto]).
Qed.

Lemma split_at_last (A : Type) (es : list A) (x : A) pre e post :
  es ++ [x] = pre ++ e :: post -> post = [] \/ In e es.
Proof.
  intros H. destruct post as [|p post]; [now left | right].
  destruct (exists_last (l := p :: post)) as (post' & z & Hp); [discriminate|].
  rewrite Hp in H.
  change (pre ++ e :: post' ++ [z]) with (pre ++ (e :: post') ++ [z]) in H.
  rewrite app_assoc in H. apply app_inj_tail in H as [-> _].
  apply in_or_app. right. now left.
Qed.

Lemma exit_last_observed (es last : list Event) :
  existsb isExitEvent es = false ->
  (last = [] \/ exists c, last = [ExitCode c]) ->
  List.length (filter isExitEvent (es ++ last)) <= 1 /\
  forall pre e post, es ++ last = pre ++ e :: post -> isExitEvent e = true ->
    existsb isDataEvent post = false.
Proof.
  intros Hes Hlast.
  assert (Hin : forall e, In e es -> isExitEvent e = true -> False).
  { intros e Hi He. enough (existsb isExitEvent es = true) by congruence.
    apply existsb_exists. eauto. }
  split.
  - rewrite filter_app, length_app.
    replace (filter isExitEvent es) with (@nil Event).
    + destruct Hlast as [-> | [c ->]]; simpl; lia.
    + symmetry. clear -Hes. induction es as [|y r IH]; [reflexivity|]. simpl in *.
      apply orb_false_elim in Hes as [Hy Hr]. now rewrite Hy, IH.
  - intros pre e post Heq He. destruct Hlast as [-> | [c ->]].
    + rewrite app_nil_r in Heq. exfalso. apply (Hin e); [|exact He].
      rewrite Heq. apply in_or_app. right. now left.
    + destruct (split_at_last _ _ _ _ _ _ Heq) as [-> | Hi]; [reflexivity|].
      exfalso. now apply (Hin e).
Qed.

(** C1.  In every execution of every session the exit event reaches the
    subscribers at most once, and no data event reaches a subscriber after
    the exit event did.  This holds for the streams as a whole and for the
    sequence of events seen by each single subscription. *)
Theorem exit_once_no_data_after (a : Launch) (ins : list Input) :
  let tr := log (execution a ins) in
  List.length (filter deliveredExit tr) <= 1 /\
  (forall pre x post, tr = pre ++ x :: post -> deliveredExit x = true ->
     existsb deliveredData post = false) /\
  (forall l : Listener,
     List.length (filter isExitEvent (observed l tr)) <= 1 /\
     forall pre e post, observed l tr = pre ++ e :: post ->
       isExitEvent e = true -> existsb isDataEvent post = false).
Proof.
  destruct (exitSeals_execution a ins) as [Hs _]. cbv zeta.
  split; [now apply silent_exit_once|]. split.
  - intros pre x post Heq Hx. apply undelivered_no_data.
    apply (silent_split _ Hs _ _ _ Heq).
    unfold deliveredExit in Hx. now apply andb_prop in Hx as [? _].
  - intros l. destruct (silent_observed l _ Hs) as (es & last & -> & He & Hl).
    now apply exit_last_observed.
Qed.

(** ** The timer queue *)

Lemma hasHandle_true (h : positive) (t : Timer) :
  hasHandle h t = true <-> handle t = h.
Proof. unfold hasHandle. apply Pos.eqb_eq. Qed.

Lemma hasHandle_false (h : positive) (t : Timer) :
  hasHandle h t = false <-> handle t <> h.
Proof. unfold hasHandle. apply Pos.eqb_neq. Qed.

Lemma filter_clear_other (P : Timer -> bool) (h : positive) (ts : list Timer) :
  (forall t, In t ts -> P t = true -> handle t <> h) ->
  filter P (filter (fun t => negb (hasHandle h t)) ts) = filter P ts.
Proof.
  induction ts as [|t ts IH]; simpl; intros H; [reflexivity|].
  destruct (P t) eqn:Pt.
  - assert (Hh : hasHandle h t = false) by (apply hasHandle_false; auto).
    rewrite Hh. simpl. rewrite Pt, IH; auto.
  - destruct (hasHandle h t); simpl; rewrite ?Pt; apply IH; auto.
Qed.

Lemma filter_clear_all (P : Timer -> bool) (h : positive) (ts : list Timer) :
  (forall t, In t ts -> P t = true -> handle t = h) ->
  filter P (filter (fun t => negb (hasHandle h t)) ts) = [].
Proof.
  induction ts as [|t ts IH]; simpl; intros H; [reflexivity|].
  destruct (hasHandle h t) eqn:Hh; simpl; [apply IH; auto|].
  destruct (P t) eqn:Pt; [|apply IH; auto].
  apply hasHandle_false in Hh. exfalso. apply Hh. auto.
Qed.

Lemma redue_handle h d t : handle (redue h d t) = handle t.
Proof. unfold redue. now destruct (hasHandle h t). Qed.

Lemma redue_callback h d t : callback (redue h d t) = callback t.
Proof. unfold redue. now destruct (hasHandle h t). Qed.

Lemma redue_repeat h d t : repeat (redue h d t) = repeat t.
Proof. unfold redue. now destruct (hasHandle h t). Qed.

Lemma filter_redue_other (c : Callback) (h : positive) (d : nat) (ts : list Timer) :
  (forall t, In t ts -> ofKind c t = true -> handle t <> h) ->
  filter (ofKind c) (map (redue h d) ts) = filter (ofKind c) ts.
Proof.
  induction ts as [|t ts IH]; simpl; intros H; [reflexivity|].
  unfold ofKind at 1. rewrite redue_callback. fold (ofKind c t).
  destruct (ofKind c t) eqn:Pt; rewrite IH; auto.
  f_equal. unfold redue.
  assert (Hh : hasHandle h t = false) by (apply hasHandle_false; auto).
  now rewrite Hh.
Qed.

Lemma nodup_filter_handles (P : Timer -> bool) (ts : list Timer) :
  NoDup (map handle ts) -> NoDup (map handle (filter P ts)).
Proof.
  induction ts as [|t ts IH]; simpl; intros H; [constructor|].
  inversion H as [|? ? Hn Hr]; subst.
  destruct (P t); simpl; auto. constructor; auto.
  intros Hin. apply Hn. apply in_map_iff in Hin as (t' & Ht' & Hin).
  apply filter_In in Hin as [Hin _]. apply in_map_iff. eauto.
Qed.

Lemma map_handle_redue h d ts : map handle (map (redue h d) ts) = map handle ts.
Proof.
  rewrite map_map. apply map_ext. intros t. apply redue_handle.
Qed.

Lemma filter_idem (A : Type) (P : A -> bool) (l : list A) :
  filter P (filter P l) = filter P l.
Proof.
  induction l as [|x l IH]; simpl; [reflexivity|].
  destruct (P x) eqn:Px; simpl; rewrite ?Px, IH; reflexivity.
Qed.

Lemma cleared_idem (o : option positive) (ts : list Timer) :
  cleared o (cleared o ts) = cleared o ts.
Proof. destruct o; simpl; [apply filter_idem | reflexivity]. Qed.

Lemma cleared_In (o : option positive) (ts : list Timer) (t : Timer) :
  In t (cleared o ts) -> In t ts.
Proof.
  destruct o; simpl; [|auto]. intros H. now apply filter_In in H.
Qed.

Lemma queue_timers (w : World) :
  timers (_queueProcessExit w) =
  cleared (_closeTimeout (this w)) (timers w)
  ++ [mkTimer (nextHandle w) (clock w + 250) None CloseCb].
Proof. unfold _queueProcessExit. now destruct (_closeTimeout (this w)). Qed.

Lemma queue_this (w : World) :
  this (_queueProcessExit w) = set_closeTimeout (Some (nextHandle w)) (this w).
Proof. unfold _queueProcessExit. now destruct (_closeTimeout (this w)). Qed.

Lemma queue_log (w : World) : log (_queueProcessExit w) = log w.
Proof. unfold _queueProcessExit. now destruct (_closeTimeout (this w)). Qed.

Lemma queue_clock (w : World) : clock (_queueProcessExit w) = clock w.
Proof. unfold _queueProcessExit. now destruct (_closeTimeout (this w)). Qed.

Lemma queue_next (w : World) :
  nextHandle (_queueProcessExit w) = Pos.succ (nextHandle w).
Proof. unfold _queueProcessExit. now destruct (_closeTimeout (this w)). Qed.

(** The data listener clears the stored handle and then calls
    [_queueProcessExit], which clears it once more. *)
Lemma requeue_after_clear (w : World) (h : positive) :
  _closeTimeout (this w) = Some h ->
  _queueProcessExit (clearTimeout h w) = _queueProcessExit w.
Proof.
  intros H. unfold _queueProcessExit. cbn. rewrite H. cbn.
  now rewrite filter_idem.
Qed.

Lemma onPtyData_eq (d : string) (w : World) :
  onPtyData d w =
  let w1 := emit (fire (_onProcessData (this w)) (Data d)) w in
  match _closeTimeout (this w) with
  | Some _ => _queueProcessExit w1
  | None => w1
  end.
Proof.
  unfold onPtyData. cbv zeta.
  change (this (emit (fire (_onProcessData (this w)) (Data d)) w)) with (this w).
  destruct (_closeTimeout (this w)) eqn:H; [|reflexivity].
  now apply requeue_after_clear.
Qed.

Lemma cleared_close (w : World) :
  timersOk w ->
  filter (ofKind CloseCb) (cleared (_closeTimeout (this w)) (timers w)) = [].
Proof.
  intros Hok. destruct (_closeTimeout (this w)) as [h|] eqn:Hc; simpl.
  - apply filter_clear_all. intros t Hin Ht.
    destruct (ok_close _ Hok t Hin Ht) as [Hs _]. congruence.
  - destruct (filter (ofKind CloseCb) (timers w)) as [|t r] eqn:Hf; [reflexivity|].
    assert (Hin : In t (filter (ofKind CloseCb) (timers w))) by (rewrite Hf; now left).
    apply filter_In in Hin as [Hin Ht].
    destruct (ok_close _ Hok t Hin Ht) as [Hs _]. congruence.
Qed.

Lemma ofKind_other (c : Callback) (t : Timer) :
  c <> CloseCb -> ofKind c t = true -> ofKind CloseCb t = false.
Proof. unfold ofKind. destruct (callback t), c; simpl; congruence. Qed.

Lemma cleared_other (c : Callback) (w : World) :
  timersOk w -> c <> CloseCb ->
  filter (ofKind c) (cleared (_closeTimeout (this w)) (timers w))
  = filter (ofKind c) (timers w).
Proof.
  intros Hok Hc. destruct (_closeTimeout (this w)) as [h|] eqn:Hct; simpl; [|reflexivity].
  apply filter_clear_other. intros t Hin Ht.
  pose proof (ok_other _ Hok t Hin (ofKind_other _ _ Hc Ht)).
  pose proof (ok_stored _ Hok h Hct). lia.
Qed.

Lemma handles_fresh (w : World) (t : Timer) :
  timersOk w -> In t (timers w) -> (handle t < nextHandle w)%positive.
Proof.
  intros Hok Hin. pose proof (ok_next _ Hok).
  destruct (ofKind CloseCb t) eqn:Ht.
  - destruct (ok_close _ Hok t Hin Ht) as [Hs _].
    pose proof (ok_stored _ Hok _ Hs). lia.
  - pose proof (ok_other _ Hok t Hin Ht). lia.
Qed.

Lemma NoDup_snoc (A : Type) (l : list A) (x : A) :
  NoDup l -> ~ In x l -> NoDup (l ++ [x]).
Proof.
  intros Hl Hx. induction Hl as [|y l Hy Hl IH]; simpl.
  - constructor; [intros [] | constructor].
  - constructor.
    + intros Hin. apply in_app_or in Hin as [Hin | [-> | []]]; [auto|].
      apply Hx. now left.
    + apply IH. intros Hin. apply Hx. now right.
Qed.

Lemma timersOk_queue (w : World) : timersOk w -> timersOk (_queueProcessExit w).
Proof.
  intros Hok. pose proof (cleared_close w Hok) as Hcc.
  constructor; rewrite ?queue_next, ?queue_this, ?queue_timers; cbn.
  - pose proof (ok_next _ Hok). lia.
  - intros h [= <-]. pose proof (ok_next _ Hok). lia.
  - intros t Hin Ht. apply in_app_or in Hin as [Hin | [<- | []]]; [|now split].
    exfalso. assert (Hf : In t (filter (ofKind CloseCb)
      (cleared (_closeTimeout (this w)) (timers w)))) by (apply filter_In; auto).
    now rewrite Hcc in Hf.
  - intros t Hin Ht. apply in_app_or in Hin as [Hin | [<- | []]]; [|discriminate].
    apply cleared_In in Hin. exact (ok_other _ Hok t Hin Ht).
  - rewrite map_app. cbn. apply NoDup_snoc.
    + destruct (_closeTimeout (this w)); simpl;
        [apply nodup_filter_handles|]; exact (ok_nodup _ Hok).
    + intros Hin. apply in_map_iff in Hin as (t & Ht & Hin).
      apply cleared_In in Hin. pose proof (handles_fresh w t Hok Hin). lia.
Qed.

Lemma queue_close (w : World) :
  timersOk w ->
  closeTimers (_queueProcessExit w)
  = [mkTimer (nextHandle w) (clock w + 250) None CloseCb].
Proof.
  intros Hok. unfold closeTimers.
  now rewrite queue_timers, filter_app, (cleared_close w Hok).
Qed.

Lemma queue_other (c : Callback) (w : World) :
  timersOk w -> c <> CloseCb ->
  filter (ofKind c) (timers (_queueProcessExit w)) = filter (ofKind c) (timers w).
Proof.
  intros Hok Hc. rewrite queue_timers, filter_app, (cleared_other c w Hok Hc).
  cbn. unfold ofKind. cbn. destruct c; try congruence; cbn; apply app_nil_r.
Qed.

(** Callbacks never touch the queue, the clock or the stored handle. *)
Lemma invoke_frame (cb : Callback) (w : World) :
  timers (invoke cb w) = timers w /\ clock (invoke cb w) = clock w /\
  nextHandle (invoke cb w) = nextHandle w /\
  _closeTimeout (this (invoke cb w)) = _closeTimeout (this w) /\
  _exitCode (this (invoke cb w)) = _exitCode (this w) /\
  pid (_ptyProcess (this (invoke cb w))) = pid (_ptyProcess (this w)).
Proof.
  destruct cb; cbn; unfold onTitlePoll;
    try destruct (String.eqb _ _); cbn; repeat split.
Qed.

Lemma timersOk_frame (w w' : World) :
  timersOk w ->
  nextHandle w' = nextHandle w ->
  _closeTimeout (this w') = _closeTimeout (this w) ->
  (forall t, In t (timers w') ->
     exists t0, In t0 (timers w) /\ handle t = handle t0 /\
                callback t = callback t0 /\ repeat t = repeat t0) ->
  NoDup (map handle (timers w')) ->
  timersOk w'.
Proof.
  intros Hok Hn Hc Hsub Hnd. constructor; rewrite ?Hn, ?Hc.
  - exact (ok_next _ Hok).
  - exact (ok_stored _ Hok).
  - intros t Hin Ht. destruct (Hsub t Hin) as (t0 & Hin0 & Hh & Hcb & Hr).
    rewrite Hh, Hr. apply (ok_close _ Hok t0 Hin0).
    unfold ofKind in *. now rewrite <- Hcb.
  - intros t Hin Ht. destruct (Hsub t Hin) as (t0 & Hin0 & Hh & Hcb & Hr).
    rewrite Hh. apply (ok_other _ Hok t0 Hin0).
    unfold ofKind in *. now rewrite <- Hcb.
  - exact Hnd.
Qed.

Lemma timersOk_runTimer (w : World) (h : positive) :
  timersOk w -> timersOk (runTimer w h).
Proof.
  intros Hok. unfold runTimer.
  destruct (find (hasHandle h) (timers w)) as [t|]; [|exact Hok].
  destruct (invoke_frame (callback t)
              (match repeat t with
               | Some p => reschedule h (clock w + p) w
               | None => clearTimeout h w
               end)) as (Ht & _ & Hn & Hc & _).
  apply (timersOk_frame w); rewrite ?Ht, ?Hn, ?Hc.
  - exact Hok.
  - now destruct (repeat t).
  - now destruct (repeat t).
  - intros t1 Hin. destruct (repeat t); cbn in Hin.
    + apply in_map_iff in Hin as (t0 & <- & Hin). exists t0.
      now rewrite redue_handle, redue_callback, redue_repeat.
    + apply filter_In in Hin as [Hin _]. now exists t1.
  - destruct (repeat t); cbn.
    + rewrite map_handle_redue. exact (ok_nodup _ Hok).
    + apply nodup_filter_handles. exact (ok_nodup _ Hok).
Qed.

Lemma find_handle (ts : list Timer) (h : positive) (t : Timer) :
  find (hasHandle h) ts = Some t -> In t ts /\ handle t = h.
Proof.
  intros H. apply find_some in H as [Hin Hh]. split; [exact Hin|].
  now apply hasHandle_true.
Qed.

Lemma handle_inj (ts : list Timer) (t1 t2 : Timer) :
  NoDup (map handle ts) -> In t1 ts -> In t2 ts -> handle t1 = handle t2 ->
  t1 = t2.
Proof.
  induction ts as [|t ts IH]; simpl; intros Hnd H1 H2 Heq; [contradiction|].
  inversion Hnd as [|? ? Hn Hr]; subst.
  destruct H1 as [<- | H1], H2 as [<- | H2]; auto.
  - exfalso. apply Hn. rewrite Heq. now apply in_map.
  - exfalso. apply Hn. rewrite <- Heq. now apply in_map.
Qed.

Lemma find_pending (ts : list Timer) (t : Timer) :
  NoDup (map handle ts) -> In t ts -> find (hasHandle (handle t)) ts = Some t.
Proof.
  intros Hnd Hin.
  destruct (find (hasHandle (handle t)) ts) as [t'|] eqn:Hf.
  - apply find_handle in Hf as [Hin' Hh]. f_equal.
    now apply (handle_inj ts).
  - exfalso. pose proof (find_none _ _ Hf t Hin) as Hn.
    apply hasHandle_false in Hn. now apply Hn.
Qed.

Lemma timersOk_same (w w' : World) :
  timersOk w -> nextHandle w' = nextHandle w ->
  _closeTimeout (this w') = _closeTimeout (this w) ->
  timers w' = timers w -> timersOk w'.
Proof.
  intros Hok Hn Hc Ht. constructor; rewrite ?Hn, ?Hc, ?Ht; apply Hok.
Qed.

Lemma timersOk_tick (w : World) : timersOk w -> timersOk (tick w).
Proof.
  intros Hok. apply tick_preserves.
  - now apply (timersOk_same w).
  - intros w' t. apply timersOk_runTimer.
Qed.

Lemma timersOk_step (w : World) (i : Input) : timersOk w -> timersOk (step w i).
Proof.
  intros Hok. destruct i; simpl;
    try (now apply (timersOk_same w)).
  - rewrite onPtyData_eq. cbv zeta.
    destruct (_closeTimeout (this w)) eqn:Hc.
    + apply timersOk_queue. now apply (timersOk_same w).
    + now apply (timersOk_same w).
  - apply timersOk_queue. now apply (timersOk_same w).
  - now apply timersOk_queue.
  - apply (timersOk_same w); try reflexivity; [exact Hok|]. now destruct st.
  - apply elapse_preserves; [exact Hok | exact timersOk_tick].
Qed.

Lemma timersOk_boot (a : Launch) : timersOk (boot a).
Proof.
  constructor; cbn.
  - lia.
  - discriminate.
  - intros t [<- | [<- | []]]; discriminate.
  - intros t [<- | [<- | []]]; intros _; cbn; lia.
  - repeat constructor; cbn; intuition discriminate.
Qed.

Lemma timersOk_execution (a : Launch) (ins : list Input) :
  timersOk (execution a ins).
Proof.
  unfold execution.
  apply (run_preserves timersOk); [apply timersOk_boot | apply timersOk_step].
Qed.

(** ** Timers other than the close timeout *)

Lemma calm_refl (w : World) : calm w w.
Proof. now constructor. Qed.

Lemma calm_trans (w1 w2 w3 : World) : calm w1 w2 -> calm w2 w3 -> calm w1 w3.
Proof.
  intros [] []. constructor; etransitivity; eassumption.
Qed.

Lemma core_snoc_other (tr : list Effect) (x : Effect) :
  isData x || isExit x || isKill x = false -> core (tr ++ [x]) = core tr.
Proof.
  intros H. unfold core. rewrite filter_app. cbn. rewrite H. apply app_nil_r.
Qed.

Lemma invoke_calm (cb : Callback) (w : World) :
  cb <> CloseCb -> calm w (invoke cb w).
Proof.
  intros Hcb. destruct cb; [| |congruence]; cbn.
  - constructor; try reflexivity. cbn. now apply core_snoc_other.
  - unfold onTitlePoll. destruct (String.eqb _ _); [apply calm_refl|].
    constructor; try reflexivity. cbn. now apply core_snoc_other.
Qed.

Lemma close_handle_high (w : World) (t : Timer) :
  timersOk w -> In t (timers w) -> ofKind CloseCb t = true ->
  (3 <= handle t)%positive.
Proof.
  intros Hok Hin Ht. destruct (ok_close _ Hok t Hin Ht) as [Hs _].
  pose proof (ok_stored _ Hok _ Hs). lia.
Qed.

Lemma runTimer_calm (w : World) (h : positive) :
  timersOk w -> (h < 3)%positive -> calm w (runTimer w h).
Proof.
  intros Hok Hh. unfold runTimer.
  destruct (find (hasHandle h) (timers w)) as [t|] eqn:Hf; [|apply calm_refl].
  apply find_handle in Hf as [Hin <-].
  assert (Hfar : forall t0, In t0 (timers w) -> ofKind CloseCb t0 = true ->
                 handle t0 <> handle t).
  { intros t0 Hin0 H0. pose proof (close_handle_high w t0 Hok Hin0 H0). lia. }
  assert (Hcb : callback t <> CloseCb).
  { intros E. apply (Hfar t Hin); [|reflexivity]. unfold ofKind. now rewrite E. }
  eapply calm_trans; [|apply invoke_calm; exact Hcb].
  destruct (repeat t); constructor; try reflexivity; unfold closeTimers; cbn.
  - now apply filter_redue_other.
  - now apply filter_clear_other.
Qed.

Lemma fold_calm (hs : list positive) (w : World) :
  timersOk w -> Forall (fun h => (h < 3)%positive) hs ->
  calm w (fold_left runTimer hs w) /\ timersOk (fold_left runTimer hs w).
Proof.
  revert w. induction hs as [|h hs IH]; intros w Hok Hhs; simpl.
  - split; [apply calm_refl | exact Hok].
  - inversion Hhs as [|? ? Hh Hrest]; subst.
    destruct (IH (runTimer w h) (timersOk_runTimer w h Hok) Hrest) as [Hc Ho].
    split; [|exact Ho].
    eapply calm_trans; [apply (runTimer_calm w h); assumption | exact Hc].
Qed.

Lemma advance_calm_fields (w : World) :
  closeTimers (advance w) = closeTimers w /\ this (advance w) = this w /\
  log (advance w) = log w /\ timers (advance w) = timers w /\
  nextHandle (advance w) = nextHandle w /\ clock (advance w) = S (clock w).
Proof. repeat split. Qed.

Lemma timersOk_advance (w : World) : timersOk w -> timersOk (advance w).
Proof. intros Hok. now apply (timersOk_same w). Qed.

(** A tick before the close timeout is due. *)
Lemma tick_early (w : World) :
  timersOk w ->
  (forall t, In t (closeTimers w) -> S (clock w) < due t) ->
  calm (advance w) (tick w) /\ timersOk (tick w).
Proof.
  intros Hok Hlate. unfold tick. apply fold_calm; [now apply timersOk_advance|].
  apply Forall_forall. intros h Hin. cbn in Hin.
  apply in_map_iff in Hin as (t & <- & Hin).
  apply filter_In in Hin as [Hin Hdue].
  destruct (ofKind CloseCb t) eqn:Ht.
  - exfalso. assert (Hc : In t (closeTimers w)) by (apply filter_In; auto).
    apply Hlate in Hc. unfold isDue in Hdue. apply Nat.leb_le in Hdue. lia.
  - exact (ok_other _ Hok t Hin Ht).
Qed.

(** ** The tick at which the close timeout fires *)

Lemma ofKind_callback (c : Callback) (t : Timer) :
  ofKind c t = true -> callback t = c.
Proof. unfold ofKind. destruct (callback t), c; simpl; congruence. Qed.

Lemma due_split (w : World) (tc : Timer) (c : nat) :
  timersOk w -> closeTimers w = [tc] -> due tc <= c ->
  exists pre post,
    map handle (filter (isDue c) (timers w)) = pre ++ handle tc :: post /\
    Forall (fun h => (h < 3)%positive) pre /\
    Forall (fun h => (h < 3)%positive) post.
Proof.
  intros Hok Hct Hdue.
  assert (Htc : In tc (closeTimers w)) by (rewrite Hct; now left).
  apply filter_In in Htc as [Htc Hk].
  assert (Hin : In tc (filter (isDue c) (timers w))).
  { apply filter_In. split; [exact Htc|]. now apply Nat.leb_le. }
  destruct (in_split _ _ Hin) as (pre & post & Heq).
  exists (map handle pre), (map handle post).
  split; [now rewrite Heq, map_app|].
  pose proof (nodup_filter_handles (isDue c) _ (ok_nodup _ Hok)) as Hnd.
  rewrite Heq, map_app in Hnd. cbn in Hnd.
  apply NoDup_remove_2 in Hnd.
  assert (Hother : forall t, In t (pre ++ post) -> (handle t < 3)%positive).
  { intros t Ht.
    assert (Hts : In t (timers w)).
    { assert (Hd : In t (filter (isDue c) (timers w))).
      { rewrite Heq. apply in_app_or in Ht as [Ht | Ht];
          apply in_or_app; [now left | right; now right]. }
      now apply filter_In in Hd. }
    destruct (ofKind CloseCb t) eqn:Hkt.
    - exfalso. assert (Hc : In t (closeTimers w)) by (apply filter_In; auto).
      rewrite Hct in Hc. destruct Hc as [<- | []].
      apply Hnd. rewrite <- map_app. now apply in_map.
    - exact (ok_other _ Hok t Hts Hkt). }
  split; apply Forall_forall; intros h Hh;
    apply in_map_iff in Hh as (t & <- & Ht); apply Hother; apply in_or_app; auto.
Qed.

Lemma core_close (tr : list Effect) (c : option Z) (rs : list Listener) :
  core ((tr ++ [PtyKill]) ++ [Emit (ExitCode c) rs])
  = core tr ++ [PtyKill; Emit (ExitCode c) rs].
Proof. unfold core. now rewrite !filter_app, <- app_assoc. Qed.

Lemma tick_fire (w : World) (tc : Timer) :
  timersOk w -> closeTimers w = [tc] -> due tc = S (clock w) ->
  let w' := tick w in
  core (log w') = core (log w)
                  ++ [PtyKill; Emit (ExitCode (_exitCode (this w)))
                                    (receiversOf (_onProcessExit (this w)))] /\
  closeTimers w' = [] /\ timersOk w' /\ allDisposed (this w') = true /\
  clock w' = S (clock w) /\ nextHandle w' = nextHandle w /\
  _exitCode (this w') = _exitCode (this w) /\
  _closeTimeout (this w') = _closeTimeout (this w).
Proof.
  intros Hok Hct Hdue. cbv zeta. unfold tick.
  change (timers (advance w)) with (timers w).
  change (clock (advance w)) with (S (clock w)).
  destruct (due_split w tc (S (clock w)) Hok Hct) as (pre & post & -> & Hpre & Hpost);
    [lia|].
  rewrite fold_left_app. simpl.
  destruct (fold_calm pre (advance w) (timersOk_advance w Hok) Hpre) as [C1 O1].
  set (w2 := fold_left runTimer pre (advance w)) in *.
  assert (Hct2 : closeTimers w2 = [tc]) by (rewrite (calm_close _ _ C1); exact Hct).
  assert (Htc : In tc (timers w2)).
  { assert (H : In tc (closeTimers w2)) by (rewrite Hct2; now left).
    now apply filter_In in H. }
  assert (Hk : ofKind CloseCb tc = true).
  { assert (H : In tc (closeTimers w2)) by (rewrite Hct2; now left).
    now apply filter_In in H. }
  destruct (ok_close _ O1 tc Htc Hk) as [Hst Hrep].
  assert (Hrun : runTimer w2 (handle tc)
                 = onCloseTimeout (clearTimeout (handle tc) w2)).
  { unfold runTimer. rewrite (find_pending _ _ (ok_nodup _ O1) Htc).
    now rewrite Hrep, (ofKind_callback _ _ Hk). }
  set (w3 := runTimer w2 (handle tc)) in *.
  assert (O3 : timersOk w3) by (apply timersOk_runTimer; exact O1).
  assert (Hct3 : closeTimers w3 = []).
  { rewrite Hrun. unfold closeTimers. cbn. apply filter_clear_all.
    intros t Hin Ht. destruct (ok_close _ O1 t Hin Ht) as [Hs _]. congruence. }
  destruct (fold_calm post w3 O3 Hpost) as [C4 O4].
  set (w4 := fold_left runTimer post w3) in *.
  split; [|split; [|split; [exact O4|split; [|split; [|split; [|split]]]]]].
  - rewrite (calm_core _ _ C4), Hrun. cbn -[core]. unfold fire. rewrite core_close.
    now rewrite (calm_core _ _ C1), (calm_code _ _ C1), (calm_exit _ _ C1).
  - now rewrite (calm_close _ _ C4).
  - unfold allDisposed.
    rewrite (calm_data _ _ C4), (calm_exit _ _ C4), (calm_ready _ _ C4),
      (calm_title _ _ C4), Hrun. reflexivity.
  - rewrite (calm_clock _ _ C4), Hrun. cbn. now rewrite (calm_clock _ _ C1).
  - rewrite (calm_next _ _ C4), Hrun. cbn. now rewrite (calm_next _ _ C1).
  - rewrite (calm_code _ _ C4), Hrun. cbn. now rewrite (calm_code _ _ C1).
  - rewrite (calm_stored _ _ C4), Hrun. cbn. now rewrite (calm_stored _ _ C1).
Qed.

(** ** Letting time pass *)

Lemma calm_advance (w w' : World) : calm w w' -> calm (advance w) (advance w').
Proof.
  intros []. constructor; cbn; try assumption.
  - now f_equal.
Qed.

Lemma elapse_early (k : nat) (w : World) :
  timersOk w ->
  (forall t, In t (closeTimers w) -> clock w + k < due t) ->
  calm (later k w) (Nat.iter k tick w) /\ timersOk (Nat.iter k tick w).
Proof.
  intros Hok. induction k as [|k IH]; intros Hlate.
  - simpl. split; [now constructor | exact Hok].
  - destruct IH as [Hc Ho]; [intros t Ht; specialize (Hlate t Ht); lia|].
    simpl. set (wk := Nat.iter k tick w) in *.
    destruct (tick_early wk Ho) as [Hc' Ho'].
    + intros t Ht. rewrite (calm_close _ _ Hc) in Ht.
      specialize (Hlate t Ht). rewrite (calm_clock _ _ Hc). cbn. lia.
    + split; [|exact Ho'].
      eapply calm_trans; [|exact Hc']. exact (calm_advance _ _ Hc).
Qed.

Lemma elapse_fire (k : nat) (w : World) (tc : Timer) :
  timersOk w -> closeTimers w = [tc] -> due tc = clock w + S k ->
  let w' := Nat.iter (S k) tick w in
  core (log w') = core (log w)
                  ++ [PtyKill; Emit (ExitCode (_exitCode (this w)))
                                    (receiversOf (_onProcessExit (this w)))] /\
  closeTimers w' = [] /\ timersOk w' /\ allDisposed (this w') = true /\
  clock w' = clock w + S k /\ nextHandle w' = nextHandle w /\
  _exitCode (this w') = _exitCode (this w) /\
  _closeTimeout (this w') = _closeTimeout (this w).
Proof.
  intros Hok Hct Hdue. cbv zeta. simpl.
  destruct (elapse_early k w Hok) as [Hc Ho].
  { intros t Ht. rewrite Hct in Ht. destruct Ht as [<- | []]. lia. }
  set (wk := Nat.iter k tick w) in *.
  destruct (tick_fire wk tc Ho) as (H1 & H2 & H3 & H4 & H5 & H6 & H7 & H8).
  - now rewrite (calm_close _ _ Hc).
  - rewrite (calm_clock _ _ Hc). cbn. lia.
  - rewrite H1, H5, H6, H7, H8.
    rewrite (calm_core _ _ Hc), (calm_code _ _ Hc), (calm_exit _ _ Hc),
      (calm_clock _ _ Hc), (calm_next _ _ Hc), (calm_stored _ _ Hc).
    cbn. repeat (split; try assumption). lia.
Qed.

(** ** Trailing output *)

Lemma core_snoc_data (tr : list Effect) (d : string) (rs : list Listener) :
  core (tr ++ [Emit (Data d) rs]) = core tr ++ [Emit (Data d) rs].
Proof. unfold core. now rewrite filter_app. Qed.

Lemma armed_stored (w : World) :
  timersOk w -> armed w -> exists h, _closeTimeout (this w) = Some h.
Proof.
  intros Hok [h Hct].
  assert (Hin : In (mkTimer h (clock w + 250) None CloseCb) (closeTimers w))
    by (rewrite Hct; now left).
  apply filter_In in Hin as [Hin Hk].
  destruct (ok_close _ Hok _ Hin Hk) as [Hs _]. eauto.
Qed.

Lemma queue_armed (w : World) : timersOk w -> armed (_queueProcessExit w).
Proof.
  intros Hok. exists (nextHandle w). now rewrite queue_close, queue_clock.
Qed.

Lemma burst_absorbed (burst : list (nat * string)) (w : World) :
  timersOk w -> armed w -> Forall (fun gc => fst gc < 250) burst ->
  let w' := run (burstInputs burst) w in
  timersOk w' /\ armed w' /\
  core (log w') = core (log w) ++ chunkEmits (_onProcessData (this w)) burst /\
  _exitCode (this w') = _exitCode (this w) /\
  _onProcessExit (this w') = _onProcessExit (this w).
Proof.
  revert w. induction burst as [|[g c] burst IH]; intros w Hok Harm Hgaps; cbv zeta.
  - cbn. rewrite app_nil_r. auto.
  - inversion Hgaps as [|? ? Hg Hrest]; subst. cbn in Hg.
    change (run (burstInputs ((g, c) :: burst)) w)
      with (run (burstInputs burst) (onPtyData c (Nat.iter g tick w))).
    destruct Harm as [h Hct].
    destruct (elapse_early g w Hok) as [Hc Ho].
    { intros t Ht. rewrite Hct in Ht. destruct Ht as [<- | []]. cbn. lia. }
    set (w1 := Nat.iter g tick w) in *.
    assert (Harm1 : exists h1, _closeTimeout (this w1) = Some h1).
    { rewrite (calm_stored _ _ Hc). cbn. apply armed_stored; [exact Hok|].
      now exists h. }
    destruct Harm1 as [h1 Hs1].
    set (w1e := emit (fire (_onProcessData (this w1)) (Data c)) w1).
    assert (Hoe : timersOk w1e) by now apply (timersOk_same w1).
    assert (Hd : onPtyData c w1 = _queueProcessExit w1e).
    { rewrite onPtyData_eq. cbv zeta. now rewrite Hs1. }
    rewrite Hd.
    destruct (IH (_queueProcessExit w1e) (timersOk_queue _ Hoe)
                 (queue_armed _ Hoe) Hrest) as (I1 & I2 & I3 & I4 & I5).
    split; [exact I1|]. split; [exact I2|].
    rewrite I3, I4, I5, queue_log, !queue_this. cbn -[core chunkEmits].
    unfold fire. rewrite core_snoc_data, (calm_core _ _ Hc), (calm_data _ _ Hc),
      (calm_code _ _ Hc), (calm_exit _ _ Hc). cbn -[core].
    now rewrite <- app_assoc.
Qed.


(** The debounce proper.  Once the close timeout is queued, a burst of
    chunks that leaves no gap of 250 units is passed on without a kill or an
    exit event; the first 250 units of silence end with both. *)
Lemma queued_burst (w0 : World) (burst : list (nat * string)) :
  timersOk w0 -> Forall (fun gc => fst gc < 250) burst ->
  let wb := run (burstInputs burst) (_queueProcessExit w0) in
  let chunks := chunkEmits (_onProcessData (this w0)) burst in
  (forall k, k < 250 ->
     core (log (Nat.iter k tick wb)) = core (log w0) ++ chunks) /\
  core (log (Nat.iter 250 tick wb))
  = core (log w0) ++ chunks
    ++ [PtyKill; Emit (ExitCode (_exitCode (this w0)))
                      (receiversOf (_onProcessExit (this w0)))].
Proof.
  intros Hok0 Hgaps wb chunks.
  destruct (burst_absorbed burst (_queueProcessExit w0)
              (timersOk_queue _ Hok0) (queue_armed _ Hok0) Hgaps)
    as (B1 & [h B2] & B3 & B4 & B5).
  fold wb in B1, B2, B3, B4, B5.
  rewrite queue_log, !queue_this in *.
  change (core (log wb) = core (log w0) ++ chunks) in B3.
  change (_exitCode (this wb) = _exitCode (this w0)) in B4.
  change (_onProcessExit (this wb) = _onProcessExit (this w0)) in B5.
  split.
  - intros k Hk.
    destruct (elapse_early k wb B1) as [Hc _].
    { intros t Ht. rewrite B2 in Ht. destruct Ht as [<- | []]. cbn. lia. }
    rewrite (calm_core _ _ Hc). exact B3.
  - change 250 with (S 249) at 1.
    destruct (elapse_fire 249 wb _ B1 B2) as (F1 & _); [cbn; lia|].
    rewrite F1, B3, B4, B5. now rewrite <- app_assoc.
Qed.

(** C2.  After the pty has reported exit, a burst of trailing chunks, each
    arriving less than 250 time units after the previous event, is passed on
    in full and in order before the exit event: as long as less than 250
    units have passed since the last chunk nothing has been killed and no
    exit has been emitted, and exactly 250 units after the last chunk the
    process is killed and the exit event is emitted with the reported
    code. *)
Theorem trailing_output_precedes_exit
    (a : Launch) (ins : list Input) (code : Z) (burst : list (nat * string)) :
  Forall (fun gc => fst gc < 250) burst ->
  let w := execution a ins in
  let w' := run (PtyExit code :: burstInputs burst) w in
  let chunks := chunkEmits (_onProcessData (this w)) burst in
  (forall k, k < 250 ->
     core (log (step w' (Elapse k))) = core (log w) ++ chunks) /\
  core (log (step w' (Elapse 250)))
  = core (log w) ++ chunks
    ++ [PtyKill; Emit (ExitCode (Some code))
                      (receiversOf (_onProcessExit (this w)))].
Proof.
  intros Hgaps w w' chunks.
  assert (Hok0 : timersOk (withThis (set_exitCode (Some code)) w)).
  { apply (timersOk_same w); try reflexivity. apply timersOk_execution. }
  exact (queued_burst (withThis (set_exitCode (Some code)) w) burst Hok0 Hgaps).
Qed.

(** ** Shutdown *)

Lemma quiet_step (i : Input) (w : World) :
  timersOk w -> quiet i = true ->
  (forall t, In t (closeTimers w) -> clock w + duration [i] < due t) ->
  let w' := step w i in
  timersOk w' /\ clock w' = clock w + duration [i] /\
  closeTimers w' = closeTimers w /\
  _exitCode (this w') = _exitCode (this w) /\
  core (log w') = core (log w).
Proof.
  intros Hok Hq Hlate. pose proof (timersOk_step w i Hok) as Hok'.
  destruct i; try discriminate; cbv zeta; (split; [exact Hok'|]); cbn -[core].
  - now rewrite Nat.add_0_r.
  - rewrite Nat.add_0_r. repeat split. now apply core_snoc_other.
  - rewrite Nat.add_0_r. repeat split. now apply core_snoc_other.
  - now rewrite Nat.add_0_r.
  - rewrite Nat.add_0_r. repeat split. now destruct st.
  - destruct (elapse_early dt w Hok) as [Hc _].
    { intros t Ht. specialize (Hlate t Ht). cbn in Hlate. lia. }
    rewrite (calm_clock _ _ Hc), (calm_close _ _ Hc), (calm_code _ _ Hc),
      (calm_core _ _ Hc). cbn -[core]. repeat split. lia.
Qed.

Lemma duration_cons (i : Input) (ins : list Input) :
  duration (i :: ins) = duration [i] + duration ins.
Proof. destruct i; cbn; lia. Qed.

Lemma quiet_window (ins : list Input) (w : World) :
  timersOk w -> forallb quiet ins = true ->
  (forall t, In t (closeTimers w) -> clock w + duration ins < due t) ->
  let w' := run ins w in
  timersOk w' /\ clock w' = clock w + duration ins /\
  closeTimers w' = closeTimers w /\
  _exitCode (this w') = _exitCode (this w) /\
  core (log w') = core (log w).
Proof.
  revert w. induction ins as [|i ins IH]; intros w Hok Hq Hlate; cbv zeta.
  - cbn -[core]. rewrite Nat.add_0_r. auto.
  - cbn [forallb] in Hq. apply andb_prop in Hq as [Hi Hq].
    rewrite duration_cons in *.
    destruct (quiet_step i w Hok Hi) as (S1 & S2 & S3 & S4 & S5).
    { intros t Ht. specialize (Hlate t Ht). lia. }
    change (run (i :: ins) w) with (run ins (step w i)).
    destruct (IH (step w i) S1 Hq) as (I1 & I2 & I3 & I4 & I5).
    { intros t Ht. rewrite S3 in Ht. specialize (Hlate t Ht). lia. }
    rewrite I2, I3, I4, I5, S2, S3, S4, S5.
    split; [exact I1|]. split; [lia|]. auto.
Qed.

(** C6, as amended.  [shutdown] kills nothing itself: it only queues the
    close timeout, by the routine the exit listener uses.  If neither
    output nor an exit report nor another shutdown reaches the session
    during the next 250 time units, nothing is killed and no exit is emitted
    before the 250 units are over, and when they are over the process is
    killed and one exit event is emitted, carrying the exit code stored at
    the time of the call, to the subscribers the exit stream has then.
    Output that arrives earlier restarts the wait: after a burst of chunks
    that leaves no gap of 250 units the kill and the exit event come 250
    units after the last chunk. *)
Theorem shutdown_debounced
    (a : Launch) (ins window : list Input) (d : nat)
    (burst : list (nat * string)) :
  forallb quiet window = true ->
  duration window + S d = 250 ->
  Forall (fun gc => fst gc < 250) burst ->
  let w := execution a ins in
  let w1 := run (CallShutdown :: window) w in
  let wb := run (CallShutdown :: burstInputs burst) w in
  let chunks := chunkEmits (_onProcessData (this w)) burst in
  log (shutdown w) = log w /\
  (forall c, onPtyExit c w = shutdown (withThis (set_exitCode (Some c)) w)) /\
  core (log w1) = core (log w) /\
  core (log (step w1 (Elapse (S d))))
  = core (log w)
    ++ [PtyKill; Emit (ExitCode (_exitCode (this w)))
                      (receiversOf (_onProcessExit (this w1)))] /\
  (forall k, k < 250 ->
     core (log (step wb (Elapse k))) = core (log w) ++ chunks) /\
  core (log (step wb (Elapse 250)))
  = core (log w) ++ chunks
    ++ [PtyKill; Emit (ExitCode (_exitCode (this w)))
                      (receiversOf (_onProcessExit (this w)))].
Proof.
  intros Hq Hd Hgaps w w1 wb chunks.
  pose proof (timersOk_execution a ins) as Hok. fold w in Hok.
  split; [apply queue_log|]. split; [reflexivity|].
  assert (Hwin : core (log w1) = core (log w) /\
    core (log (step w1 (Elapse (S d))))
    = core (log w)
      ++ [PtyKill; Emit (ExitCode (_exitCode (this w)))
                        (receiversOf (_onProcessExit (this w1)))]).
  { change w1 with (run window (_queueProcessExit w)).
    pose proof (queue_close w Hok) as Hct.
    destruct (quiet_window window (_queueProcessExit w) (timersOk_queue w Hok) Hq)
      as (W1 & W2 & W3 & W4 & W5).
    { intros t Ht. rewrite Hct in Ht. destruct Ht as [<- | []].
      rewrite queue_clock. cbn. lia. }
    set (ww := run window (_queueProcessExit w)) in *.
    rewrite queue_log, queue_this, queue_clock in *.
    split; [exact W5|].
    change (step ww (Elapse (S d))) with (Nat.iter (S d) tick ww).
    destruct (elapse_fire d ww _ W1 (eq_trans W3 Hct)) as (F1 & _).
    - cbn. lia.
    - rewrite F1, W5, W4. reflexivity. }
  destruct Hwin as [Hw1 Hw2]. split; [exact Hw1|]. split; [exact Hw2|].
  exact (queued_burst w burst Hok Hgaps).
Qed.

(** ** The pid timer and the title poll *)

Lemma invoke_log (cb : Callback) (w : World) :
  log (invoke cb w) = log w ++ callbackEmits cb (this w).
Proof.
  destruct cb; cbn; [reflexivity| |now rewrite <- app_assoc].
  unfold onTitlePoll. destruct (String.eqb _ _); cbn; [now rewrite app_nil_r|reflexivity].
Qed.

Lemma runTimer_some (w : World) (h : positive) (t : Timer) :
  find (hasHandle h) (timers w) = Some t ->
  timers (runTimer w h)
  = match repeat t with
    | None => filter (fun t0 => negb (hasHandle h t0)) (timers w)
    | Some p => map (redue h (clock w + p)) (timers w)
    end /\
  log (runTimer w h) = log w ++ callbackEmits (callback t) (this w) /\
  clock (runTimer w h) = clock w /\
  pid (_ptyProcess (this (runTimer w h))) = pid (_ptyProcess (this w)).
Proof.
  intros Hf. unfold runTimer. rewrite Hf.
  set (w1 := match repeat t with
             | Some p => reschedule h (clock w + p) w
             | None => clearTimeout h w
             end).
  destruct (invoke_frame (callback t) w1) as (Ht & Hc & _ & _ & _ & Hp).
  rewrite Ht, Hc, Hp, invoke_log. subst w1. now destruct (repeat t).
Qed.

Lemma runTimer_other_kind (c : Callback) (w : World) (h : positive) (t : Timer) :
  timersOk w -> find (hasHandle h) (timers w) = Some t -> callback t <> c ->
  filter (ofKind c) (timers (runTimer w h)) = filter (ofKind c) (timers w).
Proof.
  intros Hok Hf Hc. destruct (runTimer_some w h t Hf) as (-> & _).
  apply find_handle in Hf as [Hin <-].
  assert (Hfar : forall t0, In t0 (timers w) -> ofKind c t0 = true ->
                 handle t0 <> handle t).
  { intros t0 Hin0 H0 Heq. apply Hc.
    rewrite <- (handle_inj _ _ _ (ok_nodup _ Hok) Hin0 Hin Heq).
    now apply ofKind_callback. }
  destruct (repeat t).
  - now apply filter_redue_other.
  - now apply filter_clear_other.
Qed.

Lemma filter_map_redue (c : Callback) (h : positive) (d : nat) (ts : list Timer) :
  filter (ofKind c) (map (redue h d) ts) = map (redue h d) (filter (ofKind c) ts).
Proof.
  induction ts as [|t ts IH]; simpl; [reflexivity|].
  unfold ofKind at 1. rewrite redue_callback. fold (ofKind c t).
  destruct (ofKind c t); simpl; now rewrite IH.
Qed.

Lemma filter_comm (A : Type) (P Q : A -> bool) (l : list A) :
  filter P (filter Q l) = filter Q (filter P l).
Proof.
  induction l as [|x l IH]; simpl; [reflexivity|].
  destruct (P x) eqn:Px, (Q x) eqn:Qx; simpl; rewrite ?Px, ?Qx, IH; reflexivity.
Qed.

Lemma ofKind_refl (t : Timer) : ofKind (callback t) t = true.
Proof. unfold ofKind. now destruct (callback t). Qed.

Lemma runTimer_same_kind (w : World) (h : positive) (t : Timer) :
  find (hasHandle h) (timers w) = Some t ->
  filter (ofKind (callback t)) (timers w) = [t] ->
  filter (ofKind (callback t)) (timers (runTimer w h))
  = match repeat t with
    | None => []
    | Some p => [mkTimer (handle t) (clock w + p) (repeat t) (callback t)]
    end.
Proof.
  intros Hf Hone. destruct (runTimer_some w h t Hf) as (-> & _).
  apply find_handle in Hf as [Hin <-].
  destruct (repeat t) eqn:Hr.
  - rewrite filter_map_redue, Hone. cbn. unfold redue.
    replace (hasHandle (handle t) t) with true; [now rewrite Hr|].
    symmetry. now apply hasHandle_true.
  - rewrite filter_comm, Hone. cbn.
    replace (hasHandle (handle t) t) with true; [reflexivity|].
    symmetry. now apply hasHandle_true.
Qed.

Lemma pid_emits_of (cb : Callback) (s : TerminalProcess) :
  filter isPidEmit (callbackEmits cb s)
  = match cb with
    | SendProcessIdCb => callbackEmits cb s
    | _ => []
    end.
Proof.
  destruct cb; cbn; [reflexivity| |reflexivity].
  now destruct (String.eqb _ _).
Qed.

Lemma pidOk_runTimer (p : Z) (w : World) (h : positive) :
  timersOk w -> pidOk p w -> pidOk p (runTimer w h).
Proof.
  intros Hok [Hp Hcase].
  destruct (find (hasHandle h) (timers w)) as [t|] eqn:Hf;
    [|unfold runTimer; rewrite Hf; now split].
  destruct (runTimer_some w h t Hf) as (_ & Hlog & _ & Hpid).
  split; [congruence|]. unfold pidTimers in *. rewrite Hlog, filter_app, pid_emits_of.
  destruct (sameCallback (callback t) SendProcessIdCb) eqn:Hk.
  - assert (Hcb : callback t = SendProcessIdCb) by now apply ofKind_callback.
    assert (Hin : In t (filter (ofKind SendProcessIdCb) (timers w))).
    { apply filter_In. split; [now apply find_handle in Hf|exact Hk]. }
    destruct Hcase as [[Ht Hl] | [Ht _]]; [|now rewrite Ht in Hin].
    rewrite Ht in Hin. destruct Hin as [<- | []].
    right. pose proof (runTimer_same_kind w h _ Hf Ht) as Hs. cbn in Hs.
    split; [exact Hs|]. rewrite Hl. cbn. rewrite Hp. unfold fire. eauto.
  - assert (Hcb : callback t <> SendProcessIdCb).
    { intros E. rewrite E in Hk. discriminate. }
    rewrite (runTimer_other_kind SendProcessIdCb w h t Hok Hf Hcb).
    destruct (callback t); [congruence| |]; now rewrite app_nil_r.
Qed.

Lemma titleOk_runTimer (w : World) (h : positive) :
  timersOk w -> titleOk w -> titleOk (runTimer w h).
Proof.
  intros Hok (d & Ht & Hd).
  destruct (find (hasHandle h) (timers w)) as [t|] eqn:Hf;
    [|unfold runTimer; rewrite Hf; now exists d].
  destruct (runTimer_some w h t Hf) as (_ & _ & Hclk & _).
  unfold titleOk, pollTimers in *. rewrite Hclk.
  destruct (sameCallback (callback t) TitlePollCb) eqn:Hk.
  - assert (Hin : In t (filter (ofKind TitlePollCb) (timers w))).
    { apply filter_In. split; [now apply find_handle in Hf|exact Hk]. }
    rewrite Ht in Hin. destruct Hin as [<- | []].
    pose proof (runTimer_same_kind w h _ Hf Ht) as Hs. cbn in Hs.
    exists (clock w + 200). split; [exact Hs | lia].
  - assert (Hcb : callback t <> TitlePollCb).
    { intros E. rewrite E in Hk. discriminate. }
    rewrite (runTimer_other_kind TitlePollCb w h t Hok Hf Hcb). now exists d.
Qed.

Lemma pidOk_same (p : Z) (w w' : World) :
  pidOk p w ->
  pid (_ptyProcess (this w')) = pid (_ptyProcess (this w)) ->
  pidTimers w' = pidTimers w ->
  filter isPidEmit (log w') = filter isPidEmit (log w) ->
  pidOk p w'.
Proof. intros [Hp Hc] H1 H2 H3. split; [congruence|]. now rewrite H2, H3. Qed.

Lemma titleOk_same (w w' : World) :
  titleOk w -> pollTimers w' = pollTimers w -> clock w <= clock w' ->
  titleOk w'.
Proof.
  intros (d & Ht & Hd) H1 H2. exists d. rewrite H1. split; [exact Ht | lia].
Qed.

Lemma queue_pid (w : World) :
  timersOk w -> pidTimers (_queueProcessExit w) = pidTimers w.
Proof. intros Hok. apply queue_other; [exact Hok | discriminate]. Qed.

Lemma queue_poll (w : World) :
  timersOk w -> pollTimers (_queueProcessExit w) = pollTimers w.
Proof. intros Hok. apply queue_other; [exact Hok | discriminate]. Qed.

Lemma pid_filter_snoc (tr : list Effect) (x : Effect) :
  isPidEmit x = false -> filter isPidEmit (tr ++ [x]) = filter isPidEmit tr.
Proof. intros H. rewrite filter_app. cbn. rewrite H. apply app_nil_r. Qed.

Lemma pidOk_step (p : Z) (w : World) (i : Input) :
  timersOk w -> pidOk p w -> pidOk p (step w i).
Proof.
  intros Hok Hp. destruct i; simpl.
  - rewrite onPtyData_eq. cbv zeta.
    set (w1 := emit (fire (_onProcessData (this w)) (Data data)) w).
    assert (H1 : pidOk p w1).
    { apply (pidOk_same p w _ Hp); [reflexivity | reflexivity |].
      now apply pid_filter_snoc. }
    destruct (_closeTimeout (this w)); [|exact H1].
    apply (pidOk_same p w1 _ H1);
      [now rewrite queue_this | | now rewrite queue_log].
    apply queue_pid. now apply (timersOk_same w).
  - unfold onPtyExit.
    apply (pidOk_same p w _ Hp);
      [now rewrite queue_this | | now rewrite queue_log].
    rewrite queue_pid; [reflexivity|]. now apply (timersOk_same w).
  - now apply (pidOk_same p w _ Hp).
  - unfold shutdown.
    apply (pidOk_same p w _ Hp);
      [now rewrite queue_this | now apply queue_pid | now rewrite queue_log].
  - apply (pidOk_same p w _ Hp); [reflexivity | reflexivity |].
    now apply pid_filter_snoc.
  - apply (pidOk_same p w _ Hp); [reflexivity | reflexivity |].
    now apply pid_filter_snoc.
  - now apply (pidOk_same p w _ Hp).
  - apply (pidOk_same p w _ Hp); [now destruct st | reflexivity | reflexivity].
  - enough (H : timersOk (Nat.iter dt tick w) /\ pidOk p (Nat.iter dt tick w))
      by apply H.
    apply (elapse_preserves (fun w => timersOk w /\ pidOk p w)); [now split|].
    intros w' [Ho' Hp']. apply (tick_preserves (fun w => timersOk w /\ pidOk p w)).
    + split; [now apply timersOk_advance | now apply (pidOk_same p w')].
    + intros w2 h [H1 H2]. split;
        [now apply timersOk_runTimer | now apply pidOk_runTimer].
Qed.

Lemma titleOk_step (w : World) (i : Input) :
  timersOk w -> titleOk w -> titleOk (step w i).
Proof.
  intros Hok Hp. destruct i; simpl.
  - rewrite onPtyData_eq. cbv zeta.
    set (w1 := emit (fire (_onProcessData (this w)) (Data data)) w).
    assert (H1 : titleOk w1) by now apply (titleOk_same w).
    destruct (_closeTimeout (this w)); [|exact H1].
    apply (titleOk_same w1 _ H1); [|now rewrite queue_clock].
    apply queue_poll. now apply (timersOk_same w).
  - unfold onPtyExit. apply (titleOk_same w _ Hp); [|now rewrite queue_clock].
    rewrite queue_poll; [reflexivity|]. now apply (timersOk_same w).
  - now apply (titleOk_same w).
  - unfold shutdown. apply (titleOk_same w _ Hp);
      [now apply queue_poll | now rewrite queue_clock].
  - now apply (titleOk_same w).
  - now apply (titleOk_same w).
  - now apply (titleOk_same w).
  - now apply (titleOk_same w).
  - enough (H : timersOk (Nat.iter dt tick w) /\ titleOk (Nat.iter dt tick w))
      by apply H.
    apply (elapse_preserves (fun w => timersOk w /\ titleOk w)); [now split|].
    intros w' [Ho' Hp']. apply (tick_preserves (fun w => timersOk w /\ titleOk w)).
    + split; [now apply timersOk_advance|].
      apply (titleOk_same w' _ Hp'); [reflexivity|cbn; lia].
    + intros w2 h [H1 H2]. split;
        [now apply timersOk_runTimer | now apply titleOk_runTimer].
Qed.

(** ** Timers lie in the future *)

Lemma fold_ahead (hs : list positive) (w : World) :
  Forall (fun t => match repeat t with Some p => 0 < p | None => True end)
         (timers w) ->
  (forall t, In t (timers w) -> due t <= clock w -> In (handle t) hs) ->
  timersAhead (fold_left runTimer hs w).
Proof.
  revert w. induction hs as [|h hs IH]; intros w Hper Hdue; simpl.
  - apply Forall_forall. intros t Hin. split.
    + destruct (Nat.lt_ge_cases (clock w) (due t)) as [H|H]; [exact H|].
      destruct (Hdue t Hin H).
    + exact (proj1 (Forall_forall _ _) Hper t Hin).
  - apply IH.
    + destruct (find (hasHandle h) (timers w)) as [t0|] eqn:Hf;
        [|unfold runTimer; now rewrite Hf].
      destruct (runTimer_some w h t0 Hf) as (-> & _).
      destruct (repeat t0).
      * apply Forall_forall. intros t Hin.
        apply in_map_iff in Hin as (t1 & <- & Hin). rewrite redue_repeat.
        exact (proj1 (Forall_forall _ _) Hper t1 Hin).
      * apply Forall_forall. intros t Hin. apply filter_In in Hin as [Hin _].
        exact (proj1 (Forall_forall _ _) Hper t Hin).
    + destruct (find (hasHandle h) (timers w)) as [t0|] eqn:Hf.
      * destruct (runTimer_some w h t0 Hf) as (-> & _ & -> & _).
        pose proof (proj1 (Forall_forall _ _) Hper t0
                      (proj1 (find_handle _ _ _ Hf))) as Hp0.
        cbv beta in Hp0. revert Hp0. destruct (repeat t0) as [p|]; intros Hp0.
        -- intros t Hin Hd. apply in_map_iff in Hin as (t1 & <- & Hin).
           unfold redue in *. destruct (hasHandle h t1) eqn:Hh; cbn in *; [lia|].
           destruct (Hdue t1 Hin Hd) as [E | Hr]; [|exact Hr].
           apply hasHandle_false in Hh. now rewrite E in Hh.
        -- intros t Hin Hd. apply filter_In in Hin as [Hin Hh].
           apply negb_true_iff in Hh.
           destruct (Hdue t Hin Hd) as [E | Hr]; [|exact Hr].
           apply hasHandle_false in Hh. now rewrite E in Hh.
      * unfold runTimer. rewrite Hf. intros t Hin Hd.
        destruct (Hdue t Hin Hd) as [E | Hr]; [|exact Hr].
        pose proof (find_none _ _ Hf t Hin) as Hn.
        apply hasHandle_false in Hn. now rewrite E in Hn.
Qed.

Lemma timersAhead_tick (w : World) : timersAhead w -> timersAhead (tick w).
Proof.
  intros Ha. unfold tick. apply fold_ahead.
  - apply Forall_forall. intros t Hin.
    exact (proj2 (proj1 (Forall_forall _ _) Ha t Hin)).
  - intros t Hin Hd. apply in_map. apply filter_In. split; [exact Hin|].
    now apply Nat.leb_le.
Qed.

Lemma timersAhead_queue (w : World) :
  timersAhead w -> timersAhead (_queueProcessExit w).
Proof.
  intros Ha. unfold timersAhead. rewrite queue_timers, queue_clock.
  apply Forall_app. split.
  - apply Forall_forall. intros t Hin. apply cleared_In in Hin.
    exact (proj1 (Forall_forall _ _) Ha t Hin).
  - constructor; [cbn; split; [lia | exact I] | constructor].
Qed.

Lemma timersAhead_step (w : World) (i : Input) :
  timersAhead w -> timersAhead (step w i).
Proof.
  intros Ha. destruct i; simpl; try exact Ha.
  - rewrite onPtyData_eq. cbv zeta.
    destruct (_closeTimeout (this w)); [|exact Ha]. now apply timersAhead_queue.
  - now apply timersAhead_queue.
  - now apply timersAhead_queue.
  - apply elapse_preserves; [exact Ha | exact timersAhead_tick].
Qed.

(** ** Every execution is well formed *)

Lemma sessionOk_boot (a : Launch) : sessionOk (spawn_pid (l_host a)) (boot a).
Proof.
  constructor.
  - apply timersOk_boot.
  - split; [reflexivity|]. left. now split.
  - exists 200. split; [reflexivity | cbn; lia].
  - repeat constructor; cbn; lia.
Qed.

Lemma sessionOk_step (p : Z) (w : World) (i : Input) :
  sessionOk p w -> sessionOk p (step w i).
Proof.
  intros [H1 H2 H3 H4]. constructor.
  - now apply timersOk_step.
  - now apply pidOk_step.
  - now apply titleOk_step.
  - now apply timersAhead_step.
Qed.

Lemma sessionOk_execution (a : Launch) (ins : list Input) :
  sessionOk (spawn_pid (l_host a)) (execution a ins).
Proof.
  unfold execution. apply (run_preserves (sessionOk (spawn_pid (l_host a)))).
  - apply sessionOk_boot.
  - intros w i. apply sessionOk_step.
Qed.

Lemma poll_pending (a : Launch) (ins : list Input) :
  let w := execution a ins in
  exists d, pollTimers w = [mkTimer 2 d (Some 200) TitlePollCb] /\
            clock w < d <= clock w + 200.
Proof.
  cbv zeta. destruct (sessionOk_execution a ins) as [_ _ (d & Ht & Hd) Ha].
  exists d. split; [exact Ht|]. split; [|exact Hd].
  assert (Hin : In (mkTimer 2 d (Some 200) TitlePollCb)
                   (pollTimers (execution a ins))) by (rewrite Ht; now left).
  apply filter_In in Hin as [Hin _].
  exact (proj1 (proj1 (Forall_forall _ _) Ha _ Hin)).
Qed.

(** ** The log only grows *)

Lemma runTimer_log (w : World) (h : positive) :
  exists seg, log (runTimer w h) = log w ++ seg /\
    ((seg = []) \/ exists cb, seg = callbackEmits cb (this w)).
Proof.
  destruct (find (hasHandle h) (timers w)) as [t|] eqn:Hf.
  - destruct (runTimer_some w h t Hf) as (_ & -> & _). eauto.
  - unfold runTimer. rewrite Hf. exists []. rewrite app_nil_r. auto.
Qed.

Lemma resizeOk_callback (cb : Callback) (s : TerminalProcess) :
  Forall resizeOk (callbackEmits cb s).
Proof.
  destruct cb; cbn; try destruct (String.eqb _ _); repeat constructor.
Qed.

Lemma resizeOk_step (w : World) (i : Input) :
  Forall resizeOk (log w) -> Forall resizeOk (log (step w i)).
Proof.
  intros H. destruct i; cbn [step]; try exact H.
  - rewrite onPtyData_eq. cbv zeta.
    destruct (_closeTimeout (this w)); rewrite ?queue_log; cbn;
      apply Forall_app; split; auto; repeat constructor.
  - unfold onPtyExit. now rewrite queue_log.
  - unfold shutdown. now rewrite queue_log.
  - apply Forall_app. split; auto. repeat constructor.
  - apply Forall_app. split; auto. repeat constructor; cbn; lia.
  - apply elapse_preserves; [exact H|]. intros w' H'.
    apply tick_preserves; [exact H'|]. intros w2 h H2.
    destruct (runTimer_log w2 h) as (seg & -> & [-> | [cb ->]]).
    + now rewrite app_nil_r.
    + apply Forall_app. split; [exact H2 | apply resizeOk_callback].
Qed.

Lemma resizeOk_execution (a : Launch) (ins : list Input) :
  Forall resizeOk (log (execution a ins)).
Proof.
  unfold execution. apply (run_preserves (fun w => Forall resizeOk (log w))).
  - repeat constructor.
  - intros w i. apply resizeOk_step.
Qed.

(** C7.  [resize] forwards [max cols 1] and [max rows 1] to the pty: a
    dimension of zero or less is forwarded as exactly 1, and no resize that
    reaches the pty in any execution has a dimension below 1. *)
Theorem resize_clamps_to_one (a : Launch) (ins : list Input) (c r : Z) :
  let w := execution a ins in
  log (resize c r w) = log w ++ [PtyResize (Z.max c 1) (Z.max r 1)] /\
  ((c <= 0)%Z -> Z.max c 1 = 1%Z) /\
  ((r <= 0)%Z -> Z.max r 1 = 1%Z) /\
  Forall resizeOk (log (step w (CallResize c r))).
Proof.
  cbv zeta. split; [reflexivity|]. split; [lia|]. split; [lia|].
  apply resizeOk_step, resizeOk_execution.
Qed.

(** ** A tick as seen by the title poll *)

Lemma pollCalm_refl (w : World) : pollCalm w w.
Proof. now constructor. Qed.

Lemma pollCalm_trans (w1 w2 w3 : World) :
  pollCalm w1 w2 -> pollCalm w2 w3 -> pollCalm w1 w3.
Proof. intros [] []. constructor; etransitivity; eassumption. Qed.

Lemma title_filter_snoc (tr : list Effect) (x : Effect) :
  isTitleEmit x = false -> filter isTitleEmit (tr ++ [x]) = filter isTitleEmit tr.
Proof. intros H. rewrite filter_app. cbn. rewrite H. apply app_nil_r. Qed.

Lemma poll_handle (w : World) (t : Timer) :
  titleOk w -> In t (timers w) -> callback t = TitlePollCb -> handle t = 2%positive.
Proof.
  intros (d & Hp & _) Hin Hcb.
  assert (H : In t (pollTimers w)).
  { apply filter_In. split; [exact Hin|]. unfold ofKind. now rewrite Hcb. }
  rewrite Hp in H. now destruct H as [<- | []].
Qed.

Lemma runTimer_pollCalm (w : World) (h : positive) :
  timersOk w -> titleOk w -> h <> 2%positive -> pollCalm w (runTimer w h).
Proof.
  intros Hok Ht Hh.
  destruct (find (hasHandle h) (timers w)) as [t|] eqn:Hf;
    [|unfold runTimer; rewrite Hf; apply pollCalm_refl].
  assert (Hcb : callback t <> TitlePollCb).
  { intros E. apply find_handle in Hf as [Hin <-].
    apply Hh. now apply (poll_handle w). }
  pose proof (runTimer_other_kind TitlePollCb w h t Hok Hf Hcb) as Hp.
  unfold runTimer in *. rewrite Hf in *.
  destruct (repeat t); (destruct (callback t); [| congruence |]);
    (constructor; [reflexivity | exact Hp | reflexivity | reflexivity |]);
    cbn; unfold fire; now rewrite !title_filter_snoc.
Qed.

Lemma fold_pollCalm (hs : list positive) (w : World) :
  timersOk w -> titleOk w -> Forall (fun h => h <> 2%positive) hs ->
  pollCalm w (fold_left runTimer hs w) /\
  timersOk (fold_left runTimer hs w) /\ titleOk (fold_left runTimer hs w).
Proof.
  revert w. induction hs as [|h hs IH]; intros w Hok Ht Hhs; simpl.
  - split; [apply pollCalm_refl | now split].
  - inversion Hhs as [|? ? Hh Hrest]; subst.
    destruct (IH (runTimer w h) (timersOk_runTimer w h Hok)
                 (titleOk_runTimer w h Hok Ht) Hrest) as (Hc & Ho & Ht').
    split; [|now split].
    eapply pollCalm_trans; [apply (runTimer_pollCalm w h); assumption | exact Hc].
Qed.

Lemma poll_split (w : World) (tp : Timer) (c : nat) :
  timersOk w -> In tp (timers w) -> handle tp = 2%positive -> due tp <= c ->
  exists pre post,
    map handle (filter (isDue c) (timers w)) = pre ++ 2%positive :: post /\
    Forall (fun h => h <> 2%positive) pre /\
    Forall (fun h => h <> 2%positive) post.
Proof.
  intros Hok Hin Hh Hdue.
  assert (H2 : In 2%positive (map handle (filter (isDue c) (timers w)))).
  { rewrite <- Hh. apply in_map. apply filter_In. split; [exact Hin|].
    now apply Nat.leb_le. }
  destruct (in_split _ _ H2) as (pre & post & Heq).
  exists pre, post. split; [exact Heq|].
  pose proof (nodup_filter_handles (isDue c) _ (ok_nodup _ Hok)) as Hnd.
  rewrite Heq in Hnd. apply NoDup_remove_2 in Hnd.
  split; apply Forall_forall; intros h Hi E; subst h; apply Hnd;
    apply in_or_app; auto.
Qed.

(** A tick at which the poll is not due neither publishes a title nor
    stores one; the tick at which it is due stores the title it reads and
    publishes it exactly when it differs from the stored one. *)
Lemma tick_poll (w : World) (d : nat) :
  timersOk w -> titleOk w ->
  pollTimers w = [mkTimer 2 d (Some 200) TitlePollCb] ->
  let t := process (_ptyProcess (this w)) in
  (S (clock w) < d ->
   filter isTitleEmit (log (tick w)) = filter isTitleEmit (log w) /\
   _currentTitle (this (tick w)) = _currentTitle (this w)) /\
  (d = S (clock w) ->
   _currentTitle (this (tick w)) = t /\
   (_currentTitle (this w) = t ->
    filter isTitleEmit (log (tick w)) = filter isTitleEmit (log w)) /\
   (_currentTitle (this w) <> t ->
    exists rs, filter isTitleEmit (log (tick w))
               = filter isTitleEmit (log w) ++ [Emit (Title t) rs])).
Proof.
  intros Hok Ht Hp t.
  set (tp := mkTimer 2 d (Some 200) TitlePollCb) in *.
  assert (Hin : In tp (timers w)).
  { assert (H : In tp (pollTimers w)) by (rewrite Hp; now left).
    now apply filter_In in H. }
  assert (Hoa : timersOk (advance w)) by now apply timersOk_advance.
  assert (Hta : titleOk (advance w)).
  { apply (titleOk_same w _ Ht); [reflexivity | cbn; lia]. }
  split.
  - intros Hlate. unfold tick.
    destruct (fold_pollCalm
                (map handle (filter (isDue (clock (advance w))) (timers (advance w))))
                (advance w) Hoa Hta) as (Hc & _).
    + apply Forall_forall. intros h Hh E. subst h.
      apply in_map_iff in Hh as (t0 & Hh0 & Hi0).
      apply filter_In in Hi0 as [Hi0 Hd0]. cbn in Hi0, Hd0.
      assert (E : t0 = tp) by (apply (handle_inj _ _ _ (ok_nodup _ Hok) Hi0 Hin); exact Hh0).
      subst t0. unfold isDue in Hd0. apply Nat.leb_le in Hd0. cbn in Hd0. lia.
    + split; [exact (pc_log _ _ Hc) | exact (pc_title _ _ Hc)].
  - intros Hd. unfold tick.
    change (timers (advance w)) with (timers w).
    change (clock (advance w)) with (S (clock w)).
    destruct (poll_split w tp (S (clock w)) Hok Hin eq_refl) as (pre & post & -> & Hpre & Hpost);
      [cbn; lia|].
    rewrite fold_left_app. simpl.
    destruct (fold_pollCalm pre (advance w) Hoa Hta Hpre) as (C1 & O1 & T1).
    set (w2 := fold_left runTimer pre (advance w)) in *.
    assert (Hp2 : pollTimers w2 = [tp]) by (rewrite (pc_poll _ _ C1); exact Hp).
    assert (Hin2 : In tp (timers w2)).
    { assert (H : In tp (pollTimers w2)) by (rewrite Hp2; now left).
      now apply filter_In in H. }
    assert (Hrun : runTimer w2 2
                   = onTitlePoll (reschedule 2 (clock w2 + 200) w2)).
    { unfold runTimer.
      now rewrite (find_pending _ _ (ok_nodup _ O1) Hin2 : find (hasHandle 2) _ = _). }
    set (w3 := runTimer w2 2) in *.
    destruct (fold_pollCalm post w3 (timersOk_runTimer w2 2 O1)
                (titleOk_runTimer w2 2 O1 T1) Hpost) as (C4 & _).
    set (w4 := fold_left runTimer post w3) in *.
    rewrite (pc_log _ _ C4), (pc_title _ _ C4), Hrun.
    assert (Ht2 : _currentTitle (this w2) = _currentTitle (this w))
      by exact (pc_title _ _ C1).
    assert (Hy2 : _ptyProcess (this w2) = _ptyProcess (this w))
      by exact (pc_pty _ _ C1).
    assert (Hl2 : filter isTitleEmit (log w2) = filter isTitleEmit (log w))
      by exact (pc_log _ _ C1).
    unfold onTitlePoll. cbn [reschedule withTimers this log].
    rewrite Ht2, Hy2. fold t.
    destruct (String.eqb (_currentTitle (this w)) t) eqn:E.
    + apply String.eqb_eq in E. cbn [reschedule withTimers this log].
      rewrite Ht2, Hl2.
      split; [exact E|]. split; [reflexivity|].
      intros Hne. now destruct (Hne E).
    + apply String.eqb_neq in E. cbn. rewrite Hy2. fold t.
      split; [reflexivity|]. split; [intros Heq; now destruct (E Heq)|].
      intros _. rewrite filter_app, Hl2. cbn. eauto.
Qed.

(** ** A closed session *)

Lemma exitStep_input (w : World) (i : Input) :
  (forall dt, i <> Elapse dt) -> exitStep w (step w i).
Proof.
  intros Hi. destruct i; cbn [step].
  - apply exitStep_onPtyData.
  - apply exitStep_onPtyExit.
  - apply exitStep_retitle.
  - apply exitStep_queue.
  - now apply exitStep_call.
  - now apply exitStep_call.
  - apply exitStep_dispose.
  - apply exitStep_subscribe.
  - now destruct (Hi dt).
Qed.

Lemma silentSince_exitStep (w w1 w2 : World) :
  silentSince w w1 -> exitStep w1 w2 -> silentSince w w2.
Proof.
  intros (Hd & seg & Hl & Hs) (seg' & Hl' & Hsealed & _).
  destruct (Hsealed Hd) as [Hd' Hs']. split; [exact Hd'|].
  exists (seg ++ seg'). split.
  - now rewrite Hl', Hl, app_assoc.
  - now rewrite existsb_app, Hs, Hs'.
Qed.

Lemma silentSince_step (w w1 : World) (i : Input) :
  silentSince w w1 -> silentSince w (step w1 i).
Proof.
  intros H. destruct i;
    try (apply (silentSince_exitStep w w1); [exact H|];
         apply exitStep_input; discriminate).
  cbn [step]. apply elapse_preserves; [exact H|]. intros w2 H2.
  apply tick_preserves; [exact H2|]. intros w3 h H3.
  exact (silentSince_exitStep w w3 _ H3 (exitStep_runTimer w3 h)).
Qed.

Lemma silentSince_run (w : World) (ins : list Input) :
  allDisposed (this w) = true -> silentSince w (run ins w).
Proof.
  intros Hd. apply (run_preserves (silentSince w)).
  - split; [exact Hd|]. exists []. now rewrite app_nil_r.
  - intros w' i. apply silentSince_step.
Qed.

(** C4, as amended.  Once all four emitters are disposed, as they are from
    the moment the close timeout has fired, they stay disposed and nothing
    reaches a subscriber any more, whatever happens to the session.  The
    callbacks themselves still run and may store an exit code, queue a
    close timeout and, when that expires, kill the pty again. *)
Theorem closed_stays_silent (w : World) (future : list Input) :
  allDisposed (this w) = true ->
  allDisposed (this (run future w)) = true /\
  exists seg, log (run future w) = log w ++ seg /\
              existsb delivered seg = false.
Proof. intros Hd. exact (silentSince_run w future Hd). Qed.

Lemma execution_snoc (a : Launch) (ins : list Input) (i : Input) :
  execution a (ins ++ [i]) = step (execution a ins) i.
Proof. unfold execution, run. now rewrite fold_left_app. Qed.

(** C3, as amended.  When the close timeout expires the session kills the
    pty, then emits the exit event with the stored exit code to the
    subscribers of the exit stream, then disposes its four emitters, after
    which nothing is delivered on any stream.  The close timeout leaves the
    queue; the title poll stays in it and keeps running. *)
Theorem close_timeout_expires (a : Launch) (ins : list Input) (tc : Timer) :
  let w := execution a ins in
  closeTimers w = [tc] -> due tc = S (clock w) ->
  let w' := tick w in
  (forall w0, log (onCloseTimeout w0)
              = log w0 ++ [PtyKill;
                           Emit (ExitCode (_exitCode (this w0)))
                                (receiversOf (_onProcessExit (this w0)))]) /\
  core (log w')
  = core (log w) ++ [PtyKill; Emit (ExitCode (_exitCode (this w)))
                                   (receiversOf (_onProcessExit (this w)))] /\
  allDisposed (this w') = true /\
  closeTimers w' = [] /\
  (exists d, pollTimers w' = [mkTimer 2 d (Some 200) TitlePollCb]) /\
  (forall future, exists seg,
      log (run future w') = log w' ++ seg /\ existsb delivered seg = false).
Proof.
  intros w Hct Hdue w'.
  destruct (tick_fire w tc (timersOk_execution a ins) Hct Hdue)
    as (F1 & F2 & _ & F4 & _).
  split; [intros w0; cbn; now rewrite <- app_assoc|].
  split; [exact F1|]. split; [exact F4|]. split; [exact F2|]. split.
  - destruct (poll_pending a (ins ++ [Elapse 1])) as (d & Hd & _).
    rewrite execution_snoc in Hd. exists d. exact Hd.
  - intros future. exact (proj2 (silentSince_run _ future F4)).
Qed.

(** ** Title polling *)

(** C8.  The constructor reads the title and emits it before it registers
    the poll, with period 200.  A poll that finds the title it last
    published does nothing; a poll that finds another title emits that title
    once and stores it.  In every execution the poll is in the queue and due
    within the next 200 units; a tick at which it is not due publishes no
    title, and the tick at which it is due publishes the title of the pty
    exactly when it differs from the stored one. *)
Theorem title_polling (a : Launch) (ins : list Input) :
  (log (boot a) = [Emit (Title (spawn_process (l_host a))) []] /\
   _currentTitle (this (boot a)) = spawn_process (l_host a) /\
   forall w, _setupTitlePolling w
             = snd (setInterval TitlePollCb 200 (_sendProcessTitle w)) /\
             timers (_sendProcessTitle w) = timers w) /\
  (forall w,
     let t := process (_ptyProcess (this w)) in
     (_currentTitle (this w) = t -> onTitlePoll w = w) /\
     (_currentTitle (this w) <> t ->
      log (onTitlePoll w)
      = log w ++ [Emit (Title t) (receiversOf (_onProcessTitleChanged (this w)))] /\
      _currentTitle (this (onTitlePoll w)) = t)) /\
  (let w := execution a ins in
   exists d, pollTimers w = [mkTimer 2 d (Some 200) TitlePollCb] /\
             clock w < d <= clock w + 200) /\
  (let w := execution a ins in
   let t := process (_ptyProcess (this w)) in
   forall d, pollTimers w = [mkTimer 2 d (Some 200) TitlePollCb] ->
     (S (clock w) < d ->
      filter isTitleEmit (log (tick w)) = filter isTitleEmit (log w) /\
      _currentTitle (this (tick w)) = _currentTitle (this w)) /\
     (d = S (clock w) ->
      _currentTitle (this (tick w)) = t /\
      (_currentTitle (this w) = t ->
       filter isTitleEmit (log (tick w)) = filter isTitleEmit (log w)) /\
      (_currentTitle (this w) <> t ->
       exists rs, filter isTitleEmit (log (tick w))
                  = filter isTitleEmit (log w) ++ [Emit (Title t) rs]))).
Proof.
  split; [|split; [|split]].
  - split; [reflexivity|]. split; [reflexivity|]. intros w. now split.
  - intros w t. unfold onTitlePoll. fold t. split.
    + intros H. apply String.eqb_eq in H. now rewrite H.
    + intros H. apply String.eqb_neq in H. rewrite H. now split.
  - apply poll_pending.
  - intros w t d Hp. destruct (sessionOk_execution a ins) as [Hok _ Ht _].
    exact (tick_poll w d Hok Ht Hp).
Qed.

(** ** Calls on the session *)

Lemma execution_app (a : Launch) (ins more : list Input) :
  execution a (ins ++ more) = run more (execution a ins).
Proof. unfold execution, run. now rewrite fold_left_app. Qed.

(** C10.  [dispose] disposes the four emitters and nothing else: it kills
    nothing, the queue keeps its timers and the other fields of the session
    keep their values.  A close timeout that was pending still expires on
    time and kills the pty, only that its exit event reaches nobody; and
    the title poll, whose handle the session never stored, stays in the
    queue whatever happens next. *)
Theorem dispose_only_disposes_emitters
    (a : Launch) (ins future : list Input) (tc : Timer) (k : nat) :
  let w := execution a ins in
  let w' := dispose w in
  (log w' = log w /\ timers w' = timers w /\
   clock w' = clock w /\ nextHandle w' = nextHandle w /\
   _exitCode (this w') = _exitCode (this w) /\
   _closeTimeout (this w') = _closeTimeout (this w) /\
   _ptyProcess (this w') = _ptyProcess (this w) /\
   _currentTitle (this w') = _currentTitle (this w) /\
   _onProcessData (this w') = mkEmitter [] true /\
   _onProcessExit (this w') = mkEmitter [] true /\
   _onProcessIdReady (this w') = mkEmitter [] true /\
   _onProcessTitleChanged (this w') = mkEmitter [] true /\
   this (snd (setInterval TitlePollCb 200 w)) = this w) /\
  (closeTimers w = [tc] -> due tc = clock w + S k ->
   core (log (run [CallDispose; Elapse (S k)] w))
   = core (log w) ++ [PtyKill; Emit (ExitCode (_exitCode (this w))) []]) /\
  (exists d, pollTimers (run (CallDispose :: future) w)
             = [mkTimer 2 d (Some 200) TitlePollCb]).
Proof.
  intros w w'. split; [repeat split|]. split.
  - intros Hct Hdue.
    change (run [CallDispose; Elapse (S k)] w) with (Nat.iter (S k) tick w').
    assert (Hok : timersOk w').
    { apply (timersOk_same w); try reflexivity. apply timersOk_execution. }
    destruct (elapse_fire k w' tc Hok Hct Hdue) as (F1 & _). exact F1.
  - destruct (poll_pending a (ins ++ CallDispose :: future)) as (d & Hd & _).
    rewrite execution_app in Hd. exists d. exact Hd.
Qed.

(** * Concrete sessions *)

(** ** Where the specification asks for more than the class does *)

(** C3.  Closing does not cancel the title poll: after the tick at which
    the close timeout of [wPending] expires the poll is still queued. *)
Lemma close_keeps_title_poll : ~ releasesEverything wPending (tick wPending).
Proof.
  assert (E : pollTimers (tick wPending)
              = [mkTimer 2 400 (Some 200) TitlePollCb])
    by (vm_compute; reflexivity).
  intros (_ & _ & H). rewrite E in H. discriminate.
Qed.

(** C4.  A closed session is not inert: when the pty reports the exit that
    the kill has caused, the session stores the code and queues a new close
    timeout. *)
Lemma closed_is_not_absorbing : ~ absorbing wClosed.
Proof.
  assert (E0 : closeTimers wClosed = []) by (vm_compute; reflexivity).
  assert (E1 : closeTimers (step wClosed (PtyExit 0))
               = [mkTimer 4 500 None CloseCb]) by (vm_compute; reflexivity).
  intros H. destruct (H (PtyExit 0) eq_refl) as (_ & Hq & _).
  rewrite E0, E1 in Hq. discriminate.
Qed.

(** The close timeout queued on the closed session expires in its turn and
    kills the pty a second time. *)
Lemma closed_session_is_killed_again :
  filter isKill (log (run [PtyExit 0; Elapse 250] wClosed)) = [PtyKill; PtyKill].
Proof. vm_compute. reflexivity. Qed.

(** C5.  A session shut down at once emits its exit event after 250 units
    and announces its pid after 500, to nobody. *)
Lemma exit_precedes_pid :
  ~ pidBeforeExit (log (execution launch0 (attach ++ [CallShutdown; Elapse 500]))).
Proof.
  intros [_ H].
  specialize (H [Emit (Title "bash") []; PtyKill] (Emit (ExitCode None) [2])
                [Emit (ProcessId 4242) []]).
  assert (E : existsb isPidEmit [Emit (Title "bash") []; PtyKill] = true).
  { apply H; [vm_compute|]; reflexivity. }
  discriminate E.
Qed.

(** C6.  Output restarts the window: with a chunk every 200 units nothing
    has been killed and no exit event has been emitted twice 250 units
    after the call. *)
Lemma output_postpones_shutdown :
  ~ exitsWithin 250 (execution launch0 attach) chatter.
Proof.
  assert (E : existsb isKill
                (since (execution launch0 attach)
                   (run (CallShutdown :: chatter) (execution launch0 attach)))
              = false)
    by (vm_compute; reflexivity).
  intros H. destruct (H eq_refl eq_refl) as [_ Hk].
  exact (eq_true_false_abs _ Hk E).
Qed.

(** C9.  With a pty that accepts writes at any time and cannot be resized
    once it is killed, [input] on the closed session neither does nothing
    nor raises an error: it writes to the pty that was killed, and
    returns. *)
Lemma closed_input_is_forwarded : ~ closedCallPolicy killedPty wClosed.
Proof.
  generalize wClosed. intros w [H | H].
  - specialize (H (CallInput "ls") eq_refl).
    apply (f_equal (fun o => List.length (log (worldAfter o)))) in H.
    change (List.length (log w ++ [PtyWrite "ls"]) = List.length (log w)) in H.
    rewrite length_app in H. change (List.length [PtyWrite "ls"]) with 1 in H.
    lia.
  - destruct (H (CallInput "ls") eq_refl) as (e & w' & He). discriminate He.
Qed.

(** On the same session, with the same pty, [resize] does raise: the two
    calls are not treated alike. *)
Remark closed_resize_raises :
  errorOf (call killedPty wClosed (CallResize 80 24))
  = Some "resize of a killed pty"%string.
Proof. vm_compute. reflexivity. Qed.

(** ** Where the theorems apply *)

Lemma exit_once_no_data_after_witness :
  let tr := log (execution launch0
                   (attach ++ [CallShutdown; Elapse 250; PtyData "late"])) in
  List.length (filter deliveredExit tr) <= 1 /\
  existsb deliveredData [Emit (Data "late") []] = false.
Proof.
  destruct (exit_once_no_data_after launch0
              (attach ++ [CallShutdown; Elapse 250; PtyData "late"]))
    as (H1 & H2 & _).
  split; [exact H1|].
  apply (H2 [Emit (Title "bash") []; PtyKill] (Emit (ExitCode None) [2]));
    vm_compute; reflexivity.
Defined.

Lemma trailing_output_precedes_exit_witness :
  Forall (fun gc => fst gc < 250) burst0 /\
  core (log (step (run (PtyExit 0 :: burstInputs burst0)
                       (execution launch0 attach))
                  (Elapse 250)))
  = core (log (execution launch0 attach))
    ++ chunkEmits (_onProcessData (this (execution launch0 attach))) burst0
    ++ [PtyKill; Emit (ExitCode (Some 0%Z))
                      (receiversOf (_onProcessExit (this (execution launch0 attach))))].
Proof.
  assert (H : Forall (fun gc => fst gc < 250) burst0)
    by (repeat constructor; simpl; lia).
  split; [exact H|].
  exact (proj2 (trailing_output_precedes_exit launch0 attach 0 burst0 H)).
Defined.

Lemma close_timeout_expires_witness :
  let w := execution launch0 (attach ++ [CallShutdown; Elapse 249]) in
  closeTimers w = [mkTimer 3 250 None CloseCb] /\
  due (mkTimer 3 250 None CloseCb) = S (clock w) /\
  allDisposed (this (tick w)) = true.
Proof.
  intros w.
  assert (H1 : closeTimers w = [mkTimer 3 250 None CloseCb])
    by (vm_compute; reflexivity).
  assert (H2 : due (mkTimer 3 250 None CloseCb) = S (clock w))
    by (vm_compute; reflexivity).
  split; [exact H1|]. split; [exact H2|].
  exact (proj1 (proj2 (proj2
    (close_timeout_expires launch0 (attach ++ [CallShutdown; Elapse 249])
       (mkTimer 3 250 None CloseCb) H1 H2)))).
Defined.

Lemma closed_stays_silent_witness :
  allDisposed (this wClosed) = true /\
  allDisposed (this (run [PtyData "late"; PtyExit 0; Elapse 250] wClosed)) = true.
Proof.
  assert (H : allDisposed (this wClosed) = true) by (vm_compute; reflexivity).
  split; [exact H|].
  exact (proj1 (closed_stays_silent wClosed
                  [PtyData "late"; PtyExit 0; Elapse 250] H)).
Defined.

Lemma shutdown_debounced_witness :
  forallb quiet [Elapse 100; CallInput "ls"; Elapse 100] = true /\
  duration [Elapse 100; CallInput "ls"; Elapse 100] + 50 = 250 /\
  Forall (fun gc => fst gc < 250) burst0 /\
  core (log (run (CallShutdown :: [Elapse 100; CallInput "ls"; Elapse 100])
                 (execution launch0 attach)))
  = core (log (execution launch0 attach)).
Proof.
  assert (H1 : forallb quiet [Elapse 100; CallInput "ls"; Elapse 100] = true)
    by reflexivity.
  assert (H2 : duration [Elapse 100; CallInput "ls"; Elapse 100] + 50 = 250)
    by reflexivity.
  assert (H3 : Forall (fun gc => fst gc < 250) burst0)
    by (repeat constructor; simpl; lia).
  split; [exact H1|]. split; [exact H2|]. split; [exact H3|].
  exact (proj1 (proj2 (proj2
    (shutdown_debounced launch0 attach
       [Elapse 100; CallInput "ls"; Elapse 100] 49 burst0 H1 H2 H3)))).
Defined.

Lemma resize_clamps_to_one_witness :
  (0 <= 0)%Z /\ Z.max 0 1 = 1%Z.
Proof.
  assert (H : (0 <= 0)%Z) by lia.
  split; [exact H|].
  exact (proj1 (proj2 (resize_clamps_to_one launch0 attach 0 (-5))) H).
Defined.

Lemma title_polling_witness :
  _currentTitle (this (boot launch0)) = process (_ptyProcess (this (boot launch0))) /\
  onTitlePoll (boot launch0) = boot launch0.
Proof.
  assert (H : _currentTitle (this (boot launch0))
              = process (_ptyProcess (this (boot launch0)))) by reflexivity.
  split; [exact H|].
  exact (proj1 (proj1 (proj2 (title_polling launch0 [])) (boot launch0)) H).
Defined.

Lemma dispose_only_disposes_emitters_witness :
  let w := execution launch0 (attach ++ [CallShutdown; Elapse 100]) in
  closeTimers w = [mkTimer 3 250 None CloseCb] /\
  due (mkTimer 3 250 None CloseCb) = clock w + 150 /\
  core (log (run [CallDispose; Elapse 150] w))
  = core (log w) ++ [PtyKill; Emit (ExitCode (_exitCode (this w))) []].
Proof.
  cbv zeta.
  set (w := execution launch0 (attach ++ [CallShutdown; Elapse 100])).
  assert (H1 : closeTimers w = [mkTimer 3 250 None CloseCb])
    by (vm_compute; reflexivity).
  assert (H2 : due (mkTimer 3 250 None CloseCb) = clock w + 150)
    by (vm_compute; reflexivity).
  split; [exact H1|]. split; [exact H2|].
  exact (proj1 (proj2
    (dispose_only_disposes_emitters launch0
       (attach ++ [CallShutdown; Elapse 100]) []
       (mkTimer 3 250 None CloseCb) 149)) H1 H2).
Defined.

(** * Further properties of the class *)

(** ** What reaches the pty and the streams *)

Lemma step_log (w : World) (i : Input) :
  (forall dt, i <> Elapse dt) -> log (step w i) = log w ++ stepEmits w i.
Proof.
  intros Hi. destruct i; cbn [step stepEmits]; rewrite ?app_nil_r;
    try reflexivity.
  - rewrite onPtyData_eq. cbv zeta.
    destruct (_closeTimeout (this w)); now rewrite ?queue_log.
  - unfold onPtyExit. now rewrite queue_log.
  - unfold shutdown. now rewrite queue_log.
  - now destruct (Hi dt).
Qed.

Section Views.
Variable A : Type.
Variable view : Effect -> list A.
Variable inputView : Input -> list A.

(** Timer callbacks show nothing in this view, and an input shows what
    [inputView] says. *)
Hypothesis callbacks_hidden :
  forall cb s, flat_map view (callbackEmits cb s) = [].
Hypothesis inputs_shown :
  forall w i, (forall dt, i <> Elapse dt) ->
    flat_map view (stepEmits w i) = inputView i.
Hypothesis time_hidden : forall dt, inputView (Elapse dt) = [].

Lemma view_runTimer (w : World) (h : positive) :
  flat_map view (log (runTimer w h)) = flat_map view (log w).
Proof.
  destruct (runTimer_log w h) as (seg & -> & [-> | [cb ->]]).
  - now rewrite app_nil_r.
  - now rewrite flat_map_app, callbacks_hidden, app_nil_r.
Qed.

Lemma view_elapse (dt : nat) (w : World) :
  flat_map view (log (Nat.iter dt tick w)) = flat_map view (log w).
Proof.
  apply (elapse_preserves
           (fun w' => flat_map view (log w') = flat_map view (log w)));
    [reflexivity|].
  intros w1 H1.
  apply (tick_preserves
           (fun w' => flat_map view (log w') = flat_map view (log w)));
    [exact H1|].
  intros w2 h H2. now rewrite view_runTimer.
Qed.

Lemma view_step (w : World) (i : Input) :
  flat_map view (log (step w i)) = flat_map view (log w) ++ inputView i.
Proof.
  destruct i;
    try (rewrite step_log by discriminate;
         rewrite flat_map_app, inputs_shown by discriminate; reflexivity).
  cbn [step]. now rewrite view_elapse, time_hidden, app_nil_r.
Qed.

Lemma view_run (ins : list Input) (w : World) :
  flat_map view (log (run ins w))
  = flat_map view (log w) ++ flat_map inputView ins.
Proof.
  revert w. induction ins as [|i ins IH]; intros w.
  - cbn. now rewrite app_nil_r.
  - change (run (i :: ins) w) with (run ins (step w i)).
    rewrite IH, view_step. cbn [flat_map]. now rewrite <- app_assoc.
Qed.
End Views.

(** X1.  The texts written to the pty are the texts handed to [input], each
    once and in the order of the calls: nothing is buffered, dropped or
    added, before or after the session has closed. *)
Theorem input_is_written_in_order (a : Launch) (ins : list Input) :
  flat_map written (log (execution a ins)) = flat_map typed ins.
Proof.
  unfold execution. rewrite (view_run _ written typed).
  - reflexivity.
  - intros cb s. destruct cb; cbn; [reflexivity| |reflexivity].
    now destruct (String.eqb (_currentTitle s) (process (_ptyProcess s))).
  - intros w i _. now destruct i.
  - reflexivity.
Qed.

(** X2.  The pty is resized exactly when [resize] is called, once per call
    and in the order of the calls, to the dimensions of the call clamped to
    1 from below; neither the constructor nor any callback resizes it. *)
Theorem resize_calls_are_forwarded_in_order (a : Launch) (ins : list Input) :
  flat_map resizedTo (log (execution a ins)) = flat_map resizeAsked ins.
Proof.
  unfold execution. rewrite (view_run _ resizedTo resizeAsked).
  - reflexivity.
  - intros cb s. destruct cb; cbn; [reflexivity| |reflexivity].
    now destruct (String.eqb (_currentTitle s) (process (_ptyProcess s))).
  - intros w i _. now destruct i.
  - reflexivity.
Qed.

(** X3.  Every chunk the pty delivers is emitted on the data stream once,
    unchanged and in the order of arrival, and nothing else is emitted on
    that stream. *)
Theorem output_is_relayed_in_order (a : Launch) (ins : list Input) :
  flat_map relayed (log (execution a ins)) = flat_map chunk ins.
Proof.
  unfold execution. rewrite (view_run _ relayed chunk).
  - reflexivity.
  - intros cb s. destruct cb; cbn; [reflexivity| |reflexivity].
    now destruct (String.eqb (_currentTitle s) (process (_ptyProcess s))).
  - intros w i _. now destruct i.
  - reflexivity.
Qed.

(** C9, as amended.  [input] and [resize] do not look at the state of the
    session and have no policy of their own for a closed one.  In every
    execution, closed or not, [input] calls the pty with its text and
    [resize] calls it with the clamped dimensions, and nothing else
    changes; the call raises exactly when the pty raises, with the error of
    the pty, so it is never a call that leaves the pty alone.  Hence the
    two calls follow one policy, doing nothing or raising, exactly when the
    pty itself refuses every write and every resize in that state.
    Whatever follows, every text handed to [input] is written and every
    call of [resize] is forwarded, in order. *)
Theorem calls_always_reach_the_pty
    (pty : PtyReaction) (a : Launch) (ins future : list Input)
    (d : string) (c r : Z) :
  let w := execution a ins in
  (worldAfter (call pty w (CallInput d)) = emit [PtyWrite d] w /\
   errorOf (call pty w (CallInput d)) = pty (log w) (PtyWrite d)) /\
  (worldAfter (call pty w (CallResize c r))
   = emit [PtyResize (Z.max c 1) (Z.max r 1)] w /\
   errorOf (call pty w (CallResize c r))
   = pty (log w) (PtyResize (Z.max c 1) (Z.max r 1))) /\
  (forall i, userCall i = true ->
     List.length (log (worldAfter (call pty w i))) = S (List.length (log w))) /\
  (closedCallPolicy pty w <->
   (forall d', pty (log w) (PtyWrite d') <> None) /\
   (forall c' r', pty (log w) (PtyResize (Z.max c' 1) (Z.max r' 1)) <> None)) /\
  flat_map written (log (run future w))
  = flat_map written (log w) ++ flat_map typed future /\
  flat_map resizedTo (log (run future w))
  = flat_map resizedTo (log w) ++ flat_map resizeAsked future.
Proof.
  cbv zeta. generalize (execution a ins). intros w.
  assert (Hw : forall i, worldAfter (call pty w i) = step w i).
  { intros i. unfold call. destruct (ptyCallOf i) as [x|]; [|reflexivity].
    now destruct (pty (log w) x). }
  assert (Hlen : forall i, userCall i = true ->
            List.length (log (worldAfter (call pty w i)))
            = S (List.length (log w))).
  { intros i Hi. rewrite Hw, step_log by (destruct i; discriminate).
    rewrite length_app. destruct i; try discriminate; cbn; lia. }
  split; [|split; [|split; [exact Hlen|split; [|split]]]].
  - split; [apply Hw|]. unfold call. cbn [ptyCallOf].
    now destruct (pty (log w) (PtyWrite d)).
  - split; [apply Hw|]. unfold call. cbn [ptyCallOf].
    now destruct (pty (log w) (PtyResize (Z.max c 1) (Z.max r 1))).
  - split.
    + intros [H | H].
      * pose proof (Hlen (CallInput d) eq_refl) as Hl.
        rewrite (H (CallInput d) eq_refl) in Hl. cbn [worldAfter] in Hl. lia.
      * split.
        -- intros d' E. destruct (H (CallInput d') eq_refl) as (e & w' & He).
           unfold call in He. cbn [ptyCallOf] in He. rewrite E in He.
           discriminate He.
        -- intros c' r' E.
           destruct (H (CallResize c' r') eq_refl) as (e & w' & He).
           unfold call in He. cbn [ptyCallOf] in He. rewrite E in He.
           discriminate He.
    + intros [Hwr Hrs]. right. intros i Hi. unfold call.
      destruct i as [? | ? | ? | | data | c0 r0 | | ? ? | ?]; try discriminate Hi; cbn [ptyCallOf].
      * specialize (Hwr data). destruct (pty (log w) (PtyWrite data)) as [e|];
          [now exists e, (step w (CallInput data)) | now destruct Hwr].
      * specialize (Hrs c0 r0).
        destruct (pty (log w) (PtyResize (Z.max c0 1) (Z.max r0 1))) as [e|];
          [now exists e, (step w (CallResize c0 r0)) | now destruct Hrs].
  - apply (view_run _ written typed).
    + intros cb s. destruct cb; cbn; [reflexivity| |reflexivity].
      now destruct (String.eqb (_currentTitle s) (process (_ptyProcess s))).
    + intros w0 i _. now destruct i.
    + reflexivity.
  - apply (view_run _ resizedTo resizeAsked).
    + intros cb s. destruct cb; cbn; [reflexivity| |reflexivity].
      now destruct (String.eqb (_currentTitle s) (process (_ptyProcess s))).
    + intros w0 i _. now destruct i.
    + reflexivity.
Qed.

(** ** The exit code *)

Lemma lastExit_snoc (ins : list Input) (i : Input) :
  lastExit (ins ++ [i])
  = match i with PtyExit c => Some c | _ => lastExit ins end.
Proof. unfold lastExit. now rewrite fold_left_app. Qed.

Lemma runTimer_exitCode (w : World) (h : positive) :
  _exitCode (this (runTimer w h)) = _exitCode (this w).
Proof.
  unfold runTimer. destruct (find (hasHandle h) (timers w)) as [t|]; [|reflexivity].
  destruct (invoke_frame (callback t)
              (match repeat t with
               | Some p => reschedule h (clock w + p) w
               | None => clearTimeout h w
               end)) as (_ & _ & _ & _ & -> & _).
  now destruct (repeat t).
Qed.

Lemma payload_of_callback (cb : Callback) (s : TerminalProcess) :
  flat_map exitPayload (callbackEmits cb s) = []
  \/ flat_map exitPayload (callbackEmits cb s) = [_exitCode s].
Proof.
  destruct cb; cbn; auto. destruct (String.eqb _ _); auto.
Qed.

(** While time passes the stored code does not change, and every exit
    emitted carries it. *)
Lemma elapse_payloads (dt : nat) (w : World) :
  let w' := Nat.iter dt tick w in
  _exitCode (this w') = _exitCode (this w) /\
  forall c, In c (flat_map exitPayload (log w')) ->
    In c (flat_map exitPayload (log w)) \/ c = _exitCode (this w).
Proof.
  cbv zeta.
  set (P := fun w' : World =>
    _exitCode (this w') = _exitCode (this w) /\
    forall c, In c (flat_map exitPayload (log w')) ->
      In c (flat_map exitPayload (log w)) \/ c = _exitCode (this w)).
  apply (elapse_preserves P); [split; auto|].
  intros w1 H1. apply (tick_preserves P); [exact H1|].
  intros w2 h [E2 H2]. split; [now rewrite runTimer_exitCode|].
  intros c Hc. destruct (runTimer_log w2 h) as (seg & Hl & [-> | [cb ->]]);
    rewrite Hl, flat_map_app in Hc; apply in_app_or in Hc as [Hc | Hc]; auto.
  - destruct Hc.
  - destruct (payload_of_callback cb (this w2)) as [E | E];
      rewrite E in Hc; [destruct Hc|].
    destruct Hc as [<- | []]. now right.
Qed.

Lemma step_exitCode (w : World) (i : Input) :
  _exitCode (this (step w i))
  = match i with PtyExit c => Some c | _ => _exitCode (this w) end.
Proof.
  destruct i; cbn [step]; try reflexivity.
  - rewrite onPtyData_eq. cbv zeta.
    destruct (_closeTimeout (this w)); now rewrite ?queue_this.
  - unfold onPtyExit. now rewrite queue_this.
  - unfold shutdown. now rewrite queue_this.
  - now destruct st.
  - apply elapse_payloads.
Qed.

Lemma lastExit_none (ins pre post : list Input) :
  existsb reportsExit ins = false -> ins = pre ++ post -> lastExit pre = None.
Proof.
  intros H ->. rewrite existsb_app in H. apply orb_false_elim in H as [H _].
  induction pre as [|i pre IH] using rev_ind; [reflexivity|].
  rewrite existsb_app in H. apply orb_false_elim in H as [Hp Hi].
  rewrite lastExit_snoc. destruct i; try (now apply IH). discriminate.
Qed.

(** While time passes the log only grows, and every exit event added to it
    carries the code that was stored when the time began to pass. *)
Lemma elapse_exit_events (dt : nat) (w : World) :
  exists seg, log (Nat.iter dt tick w) = log w ++ seg /\
    Forall (fun c => c = _exitCode (this w)) (flat_map exitPayload seg).
Proof.
  set (P := fun w' : World =>
    _exitCode (this w') = _exitCode (this w) /\
    exists seg, log w' = log w ++ seg /\
      Forall (fun c => c = _exitCode (this w)) (flat_map exitPayload seg)).
  assert (H : P (Nat.iter dt tick w)); [|exact (proj2 H)].
  apply (elapse_preserves P).
  - split; [reflexivity|]. exists []. rewrite app_nil_r. now split.
  - intros w1 H1. apply (tick_preserves P); [exact H1|].
    intros w2 h [E2 (seg & Hl & Hf)]. split; [now rewrite runTimer_exitCode|].
    destruct (runTimer_log w2 h) as (seg' & Hl' & Hs).
    exists (seg ++ seg'). split; [now rewrite Hl', Hl, app_assoc|].
    rewrite flat_map_app. apply Forall_app. split; [exact Hf|].
    destruct Hs as [-> | [cb ->]]; [constructor|].
    destruct (payload_of_callback cb (this w2)) as [E | E]; rewrite E;
      [constructor|].
    constructor; [exact E2 | constructor].
Qed.

(** What one input adds to the exit events: nothing unless it is the
    passage of time, and then only events that carry the stored code. *)
Lemma step_exit_events (w : World) (i : Input) :
  exists new,
    flat_map exitPayload (log (step w i)) = flat_map exitPayload (log w) ++ new /\
    Forall (fun c => c = _exitCode (this w)) new /\
    ((forall dt, i <> Elapse dt) -> new = []).
Proof.
  destruct i;
    try (exists []; rewrite step_log, flat_map_app by discriminate;
         split; [f_equal; cbn [stepEmits];
                 try reflexivity | split; [constructor | reflexivity]]).
  destruct (elapse_exit_events dt w) as (seg & Hl & Hf).
  exists (flat_map exitPayload seg). cbn [step]. rewrite Hl, flat_map_app.
  split; [reflexivity|]. split; [exact Hf|].
  intros H. now destruct (H dt).
Qed.

(** X4.  The stored exit code is the code of the pty's last exit report,
    and absent if the pty has not reported any.  An exit event carries the
    code that is stored when it is emitted: whatever has happened so far,
    only the passage of time adds exit events, and each event it adds
    carries the code of the last exit report so far, not an earlier or a
    later one.  So every exit event carries the code of the last report
    before it, and after a shutdown of a process that never reported an
    exit the exit event carries no code. *)
Theorem exit_event_carries_last_reported_code (a : Launch) (ins : list Input) :
  let w := execution a ins in
  _exitCode (this w) = lastExit ins /\
  (forall i, exists new,
     flat_map exitPayload (log (step w i))
     = flat_map exitPayload (log w) ++ new /\
     Forall (fun c => c = lastExit ins) new /\
     ((forall dt, i <> Elapse dt) -> new = [])) /\
  (forall c, In c (flat_map exitPayload (log w)) ->
     exists pre post, ins = pre ++ post /\ c = lastExit pre) /\
  (existsb reportsExit ins = false ->
   forall c, In c (flat_map exitPayload (log w)) -> c = None).
Proof.
  cbv zeta.
  assert (H : _exitCode (this (execution a ins)) = lastExit ins /\
    forall c, In c (flat_map exitPayload (log (execution a ins))) ->
      exists pre post, ins = pre ++ post /\ c = lastExit pre).
  { induction ins as [|i ins [IH1 IH2]] using rev_ind.
    - split; [reflexivity|]. intros c [].
    - rewrite execution_snoc, step_exitCode, lastExit_snoc, IH1.
      split; [reflexivity|]. intros c Hc.
      assert (Hold : In c (flat_map exitPayload (log (execution a ins))) ->
                exists pre post, ins ++ [i] = pre ++ post /\ c = lastExit pre).
      { intros Hi. destruct (IH2 c Hi) as (pre & post & -> & E).
        exists pre, (post ++ [i]). now rewrite app_assoc. }
      destruct i;
        try (rewrite step_log, flat_map_app in Hc by discriminate;
             apply in_app_or in Hc as [Hc | Hc]; [now apply Hold | destruct Hc]).
      cbn [step] in Hc.
      destruct (proj2 (elapse_payloads dt (execution a ins)) c Hc) as [Hi | ->];
        [now apply Hold|].
      exists (ins ++ [Elapse dt]), []. rewrite app_nil_r, lastExit_snoc.
      now split. }
  destruct H as [H1 H2]. split; [exact H1|]. split; [|split; [exact H2|]].
  - intros i. rewrite <- H1. apply step_exit_events.
  - intros Hno c Hc. destruct (H2 c Hc) as (pre & post & E & ->).
    now apply (lastExit_none ins pre post).
Qed.

(** ** Kills *)

Lemma exitPath_snoc_other (tr : list Effect) (x : Effect) :
  isKill x || isExit x = false -> exitPath (tr ++ [x]) = exitPath tr.
Proof. intros H. unfold exitPath. rewrite filter_app. cbn. rewrite H. apply app_nil_r. Qed.

Lemma exitPath_stepEmits (w : World) (i : Input) : exitPath (stepEmits w i) = [].
Proof. now destruct i. Qed.


Lemma exitPath_step (w : World) (i : Input) :
  (forall dt, i <> Elapse dt) -> exitPath (log (step w i)) = exitPath (log w).
Proof.
  intros Hi. rewrite step_log by exact Hi.
  unfold exitPath. rewrite filter_app.
  change (filter (fun x => isKill x || isExit x) (stepEmits w i))
    with (exitPath (stepEmits w i)).
  now rewrite exitPath_stepEmits, app_nil_r.
Qed.


Lemma no_close_timers (w : World) :
  timersOk w -> _closeTimeout (this w) = None -> closeTimers w = [].
Proof.
  intros Hok Hn. destruct (closeTimers w) as [|t r] eqn:E; [reflexivity|].
  assert (Hin : In t (closeTimers w)) by (rewrite E; now left).
  apply filter_In in Hin as [Hin Hk].
  destruct (ok_close _ Hok t Hin Hk) as [Hs _]. congruence.
Qed.

Lemma exitPath_core (tr : list Effect) : exitPath (core tr) = exitPath tr.
Proof.
  unfold exitPath, core. induction tr as [|x tr IH]; [reflexivity|]. cbn.
  destruct (isKill x) eqn:K, (isExit x) eqn:E, (isData x) eqn:D; cbn;
    rewrite ?K, ?E; cbn; now rewrite IH.
Qed.

Lemma untriggered_step (w : World) (i : Input) :
  timersOk w -> _closeTimeout (this w) = None -> triggers i = false ->
  _closeTimeout (this (step w i)) = None /\
  exitPath (log (step w i)) = exitPath (log w).
Proof.
  intros Hok Hn Hi. destruct i; try discriminate;
    try (split; [|now apply exitPath_step]).
  - cbn [step]. rewrite onPtyData_eq. cbv zeta. now rewrite Hn.
  - exact Hn.
  - exact Hn.
  - exact Hn.
  - exact Hn.
  - cbn [step]. now destruct st.
  - cbn [step]. destruct (elapse_early dt w Hok) as [Hc _].
    { rewrite (no_close_timers w Hok Hn). intros t []. }
    split; [now rewrite (calm_stored _ _ Hc)|].
    rewrite <- exitPath_core, (calm_core _ _ Hc). apply exitPath_core.
Qed.

Lemma untriggered_run (ins : list Input) (w : World) :
  timersOk w -> _closeTimeout (this w) = None ->
  forallb (fun i => negb (triggers i)) ins = true ->
  _closeTimeout (this (run ins w)) = None /\
  exitPath (log (run ins w)) = exitPath (log w).
Proof.
  revert w. induction ins as [|i ins IH]; intros w Hok Hn Hq; [now split|].
  cbn [forallb] in Hq. apply andb_prop in Hq as [Hi Hq].
  apply negb_true_iff in Hi.
  destruct (untriggered_step w i Hok Hn Hi) as [S1 S2].
  change (run (i :: ins) w) with (run ins (step w i)).
  destruct (IH (step w i) (timersOk_step w i Hok) S1 Hq) as [I1 I2].
  split; [exact I1 | now rewrite I2].
Qed.

(** X6.  The session closes only on request: as long as the pty has not
    reported an exit and [shutdown] has not been called, no close timeout
    is stored or queued, the pty is not killed and no exit event is
    emitted, whatever output arrives and however much time passes. *)
Theorem no_close_without_exit_or_shutdown (a : Launch) (ins : list Input) :
  forallb (fun i => negb (triggers i)) ins = true ->
  let w := execution a ins in
  _closeTimeout (this w) = None /\ closeTimers w = [] /\ exitPath (log w) = [].
Proof.
  intros Hq w.
  destruct (untriggered_run ins (boot a) (timersOk_boot a) eq_refl Hq) as [H1 H2].
  split; [exact H1|]. split; [|exact H2].
  apply no_close_timers; [apply timersOk_execution | exact H1].
Qed.

(** ** The timer queue stays small *)

Lemma closeSoon_same (w w' : World) :
  closeSoon w -> closeTimers w' = closeTimers w -> clock w <= clock w' ->
  closeSoon w'.
Proof.
  intros H Hc Hk t Ht. rewrite Hc in Ht. specialize (H t Ht). lia.
Qed.

Lemma closeSoon_queue (w : World) : timersOk w -> closeSoon (_queueProcessExit w).
Proof.
  intros Hok t Ht. rewrite queue_close in Ht by exact Hok.
  destruct Ht as [<- | []]. rewrite queue_clock. cbn. lia.
Qed.

Lemma closeTimers_runTimer (w : World) (h : positive) (t : Timer) :
  timersOk w -> In t (closeTimers (runTimer w h)) -> In t (closeTimers w).
Proof.
  intros Hok Hin.
  destruct (find (hasHandle h) (timers w)) as [t0|] eqn:Hf;
    [|unfold runTimer in Hin; now rewrite Hf in Hin].
  destruct (sameCallback (callback t0) CloseCb) eqn:Hk.
  - destruct (ok_close _ Hok t0 (proj1 (find_handle _ _ _ Hf)) Hk) as [_ Hr].
    destruct (runTimer_some w h t0 Hf) as (Ht & _).
    unfold closeTimers in *. rewrite Ht, Hr in Hin.
    apply filter_In in Hin as [Hin Hc]. apply filter_In in Hin as [Hin _].
    apply filter_In. now split.
  - assert (Hcb : callback t0 <> CloseCb).
    { intros E. rewrite E in Hk. discriminate. }
    unfold closeTimers in *.
    now rewrite (runTimer_other_kind CloseCb w h t0 Hok Hf Hcb) in Hin.
Qed.

Lemma runTimer_clock (w : World) (h : positive) :
  clock (runTimer w h) = clock w.
Proof.
  destruct (find (hasHandle h) (timers w)) as [t|] eqn:Hf.
  - now destruct (runTimer_some w h t Hf) as (_ & _ & -> & _).
  - unfold runTimer. now rewrite Hf.
Qed.

Lemma closeSoon_step (w : World) (i : Input) :
  timersOk w -> closeSoon w -> closeSoon (step w i).
Proof.
  intros Hok Hs. destruct i; cbn [step];
    try (now apply (closeSoon_same w)).
  - rewrite onPtyData_eq. cbv zeta. destruct (_closeTimeout (this w)).
    + apply closeSoon_queue. now apply (timersOk_same w).
    + now apply (closeSoon_same w).
  - apply closeSoon_queue. now apply (timersOk_same w).
  - now apply closeSoon_queue.
  - enough (H : timersOk (Nat.iter dt tick w) /\ closeSoon (Nat.iter dt tick w))
      by apply H.
    apply (elapse_preserves (fun w => timersOk w /\ closeSoon w)); [now split|].
    intros w1 [O1 S1].
    apply (tick_preserves (fun w => timersOk w /\ closeSoon w)).
    + split; [now apply timersOk_advance|].
      apply (closeSoon_same w1 _ S1); [reflexivity | cbn; lia].
    + intros w2 h [O2 S2]. split; [now apply timersOk_runTimer|].
      intros t Ht. rewrite runTimer_clock. apply S2.
      now apply (closeTimers_runTimer w2 h).
Qed.

Lemma closeSoon_execution (a : Launch) (ins : list Input) :
  closeSoon (execution a ins).
Proof.
  enough (H : timersOk (execution a ins) /\ closeSoon (execution a ins)) by apply H.
  unfold execution. apply (run_preserves (fun w => timersOk w /\ closeSoon w)).
  - split; [apply timersOk_boot | intros t []].
  - intros w i [Ho Hs]. split; [now apply timersOk_step | now apply closeSoon_step].
Qed.

Lemma kinds_partition (ts : list Timer) :
  List.length ts
  = List.length (filter (ofKind SendProcessIdCb) ts)
    + List.length (filter (ofKind TitlePollCb) ts)
    + List.length (filter (ofKind CloseCb) ts).
Proof.
  induction ts as [|t ts IH]; [reflexivity|]. cbn [filter].
  assert (H : (ofKind SendProcessIdCb t, ofKind TitlePollCb t, ofKind CloseCb t)
              = (true, false, false)
           \/ (ofKind SendProcessIdCb t, ofKind TitlePollCb t, ofKind CloseCb t)
              = (false, true, false)
           \/ (ofKind SendProcessIdCb t, ofKind TitlePollCb t, ofKind CloseCb t)
              = (false, false, true)).
  { unfold ofKind. destruct (callback t); cbn; auto. }
  destruct H as [H | [H | H]]; injection H as -> -> ->; cbn [List.length]; lia.
Qed.

Lemma close_at_most_one (w : World) :
  timersOk w -> List.length (closeTimers w) <= 1.
Proof.
  intros Hok. destruct (closeTimers w) as [|t1 [|t2 r]] eqn:E; cbn; try lia.
  exfalso.
  assert (H1 : In t1 (closeTimers w)) by (rewrite E; now left).
  assert (H2 : In t2 (closeTimers w)) by (rewrite E; right; now left).
  apply filter_In in H1 as [I1 K1]. apply filter_In in H2 as [I2 K2].
  destruct (ok_close _ Hok t1 I1 K1) as [S1 _].
  destruct (ok_close _ Hok t2 I2 K2) as [S2 _].
  assert (Hh : handle t1 = handle t2) by congruence.
  pose proof (nodup_filter_handles (ofKind CloseCb) _ (ok_nodup _ Hok)) as Hnd.
  fold (closeTimers w) in Hnd. rewrite E in Hnd. cbn in Hnd.
  inversion Hnd as [|? ? Hn _]; subst. apply Hn. rewrite Hh. now left.
Qed.

(** X7.  Re-queueing never piles up timers: in every execution the queue
    holds at most three timers, at most one of them a close timeout, and a
    queued close timeout is the one whose handle is stored in
    [_closeTimeout] and expires within the next 250 units. *)
Theorem timer_queue_is_bounded (a : Launch) (ins : list Input) :
  let w := execution a ins in
  List.length (timers w) <= 3 /\
  List.length (closeTimers w) <= 1 /\
  forall t, In t (closeTimers w) ->
    _closeTimeout (this w) = Some (handle t) /\
    clock w < due t <= clock w + 250.
Proof.
  intros w. destruct (sessionOk_execution a ins) as [Hok [_ Hp] (d & Ht & _) Ha].
  fold w in Hok, Hp, Ht, Ha.
  pose proof (close_at_most_one w Hok) as Hc.
  split; [|split; [exact Hc|]].
  - rewrite kinds_partition. fold (pidTimers w) (pollTimers w) (closeTimers w).
    rewrite Ht. destruct Hp as [[-> _] | [-> _]]; cbn; lia.
  - intros t Hin. pose proof (closeSoon_execution a ins t Hin) as Hs.
    apply filter_In in Hin as [Hin Hk].
    split; [exact (proj1 (ok_close _ Hok t Hin Hk))|].
    split; [exact (proj1 (proj1 (Forall_forall _ _) Ha t Hin)) | exact Hs].
Qed.

(** ** The clock *)

Lemma tick_clock (w : World) : clock (tick w) = S (clock w).
Proof.
  apply (tick_preserves (fun w' => clock w' = S (clock w))); [reflexivity|].
  intros w' h H. now rewrite runTimer_clock.
Qed.

Lemma elapse_clock (dt : nat) (w : World) :
  clock (Nat.iter dt tick w) = clock w + dt.
Proof.
  induction dt as [|k IH]; simpl; [lia|]. rewrite tick_clock, IH. lia.
Qed.

Lemma step_clock (w : World) (i : Input) :
  clock (step w i) = clock w + duration [i].
Proof.
  destruct i; cbn [step duration]; rewrite ?Nat.add_0_r; try reflexivity.
  - rewrite onPtyData_eq. cbv zeta.
    destruct (_closeTimeout (this w)); now rewrite ?queue_clock.
  - unfold onPtyExit. now rewrite queue_clock.
  - unfold shutdown. now rewrite queue_clock.
  - apply elapse_clock.
Qed.

Lemma run_clock (ins : list Input) (w : World) :
  clock (run ins w) = clock w + duration ins.
Proof.
  revert w. induction ins as [|i ins IH]; intros w; [cbn; lia|].
  change (run (i :: ins) w) with (run ins (step w i)).
  rewrite IH, step_clock, (duration_cons i ins). lia.
Qed.

(** ** The pid announcement *)

Lemma handle_one_is_pid (w : World) (t : Timer) :
  timersOk w -> titleOk w -> In t (timers w) -> handle t = 1%positive ->
  callback t = SendProcessIdCb.
Proof.
  intros Hok Ht Hin Hh. destruct (callback t) eqn:E; [reflexivity| |].
  - pose proof (poll_handle w t Ht Hin E). congruence.
  - assert (Hk : ofKind CloseCb t = true) by (unfold ofKind; now rewrite E).
    pose proof (close_handle_high w t Hok Hin Hk). lia.
Qed.

Lemma runTimer_no_pid (p : Z) (w : World) (h : positive) :
  timersOk w -> titleOk w -> pidOk p w -> h <> 1%positive ->
  filter isPidEmit (log (runTimer w h)) = filter isPidEmit (log w).
Proof.
  intros Hok Ht [_ Hp] Hh.
  destruct (find (hasHandle h) (timers w)) as [t|] eqn:Hf;
    [|unfold runTimer; now rewrite Hf].
  destruct (runTimer_some w h t Hf) as (_ & -> & _).
  rewrite filter_app, pid_emits_of.
  apply find_handle in Hf as [Hin <-].
  destruct (callback t) eqn:E; try apply app_nil_r.
  exfalso. assert (Hi : In t (pidTimers w)).
  { apply filter_In. split; [exact Hin|]. unfold ofKind. now rewrite E. }
  destruct Hp as [[Hp _] | [Hp _]]; rewrite Hp in Hi; [|destruct Hi].
  destruct Hi as [<- | []]. now apply Hh.
Qed.

Lemma fold_no_pid (p : Z) (hs : list positive) (w : World) :
  timersOk w -> titleOk w -> pidOk p w ->
  Forall (fun h => h <> 1%positive) hs ->
  filter isPidEmit (log (fold_left runTimer hs w)) = filter isPidEmit (log w).
Proof.
  revert w. induction hs as [|h hs IH]; intros w Hok Ht Hp Hhs; [reflexivity|].
  inversion Hhs as [|? ? Hh Hrest]; subst. cbn [fold_left].
  rewrite IH; auto.
  - now apply (runTimer_no_pid p).
  - now apply timersOk_runTimer.
  - now apply titleOk_runTimer.
  - now apply pidOk_runTimer.
Qed.

Lemma tick_no_pid (p : Z) (w : World) :
  sessionOk p w -> S (clock w) < 500 ->
  filter isPidEmit (log (tick w)) = filter isPidEmit (log w).
Proof.
  intros [Hok Hp Ht Ha] Hearly. unfold tick.
  rewrite (fold_no_pid p); try reflexivity.
  - now apply timersOk_advance.
  - apply (titleOk_same w _ Ht); [reflexivity | cbn; lia].
  - now apply (pidOk_same p w).
  - apply Forall_forall. intros h Hh E. subst h.
    apply in_map_iff in Hh as (t & Hh & Hi).
    apply filter_In in Hi as [Hi Hd]. cbn in Hi, Hd.
    unfold isDue in Hd. apply Nat.leb_le in Hd.
    pose proof (handle_one_is_pid w t Hok Ht Hi Hh) as Hcb.
    assert (Hin : In t (pidTimers w)).
    { apply filter_In. split; [exact Hi|]. unfold ofKind. now rewrite Hcb. }
    destruct Hp as [_ [[Hq _] | [Hq _]]]; rewrite Hq in Hin; [|destruct Hin].
    destruct Hin as [<- | []]. cbn in Hd. lia.
Qed.

Lemma pid_silent_early (a : Launch) (ins : list Input) :
  clock (execution a ins) < 500 ->
  filter isPidEmit (log (execution a ins)) = [].
Proof.
  set (p := spawn_pid (l_host a)).
  set (P := fun w : World =>
    sessionOk p w /\ (clock w < 500 -> filter isPidEmit (log w) = [])).
  assert (H : P (execution a ins)); [|exact (proj2 H)].
  unfold execution. apply (run_preserves P).
  - split; [apply sessionOk_boot | reflexivity].
  - intros w i [Hs He]. split; [now apply sessionOk_step|].
    destruct i;
      try (rewrite step_clock, step_log by discriminate;
           cbn [duration]; rewrite Nat.add_0_r, filter_app;
           intros Hc; rewrite (He Hc); now cbn).
    cbn [step]. revert He. generalize Hs. generalize w.
    induction dt as [|k IH]; intros w0 Hs0 He0; [exact He0|].
    simpl. intros Hc. rewrite tick_clock in Hc.
    assert (Hsk : sessionOk p (Nat.iter k tick w0))
      by exact (sessionOk_step p w0 (Elapse k) Hs0).
    rewrite (tick_no_pid p) by (assumption || lia).
    apply (IH w0 Hs0 He0). lia.
Qed.

Lemma execution_clock (a : Launch) (ins : list Input) :
  clock (execution a ins) = duration ins.
Proof. unfold execution. now rewrite run_clock. Qed.

(** X8.  The pid is never announced early: as long as less than 500 time
    units have passed since construction no pid event has been emitted,
    whatever else has happened to the session. *)
Theorem pid_not_announced_before_delay (a : Launch) (ins : list Input) :
  duration ins < 500 ->
  filter isPidEmit (log (execution a ins)) = [].
Proof.
  intros Hd. apply pid_silent_early. now rewrite execution_clock.
Qed.

(** C5, as amended.  The pid is announced exactly once, by the one-shot
    timer set at construction, at the moment 500 time units have passed:
    no pid event is emitted before, one has been emitted from then on, and
    never a second.  Every pid event carries the pid of the spawned
    process, a positive integer whenever the process has a positive pid.
    The announcement does not wait for anything and nothing waits for it:
    an exit emitted earlier is not preceded by it, and then the
    announcement reaches nobody, because nothing is delivered after an exit
    was emitted. *)
Theorem pid_announced_once (a : Launch) (ins : list Input) :
  let w := execution a ins in
  let p := spawn_pid (l_host a) in
  clock w = duration ins /\
  (clock w < 500 -> filter isPidEmit (log w) = []) /\
  (500 <= clock w ->
   exists rs, filter isPidEmit (log w) = [Emit (ProcessId p) rs]) /\
  (filter isPidEmit (log w) = [] \/
   exists rs, filter isPidEmit (log w) = [Emit (ProcessId p) rs]) /\
  (forall x, In x (log w) -> isPidEmit x = true ->
     exists rs, x = Emit (ProcessId p) rs) /\
  ((0 < p)%Z ->
   forall q rs, In (Emit (ProcessId q) rs) (log w) -> (0 < q)%Z) /\
  (forall pre x post, log w = pre ++ x :: post -> isExit x = true ->
     existsb delivered post = false).
Proof.
  cbv zeta.
  destruct (sessionOk_execution a ins) as [_ [_ Hp] _ Ha].
  assert (Hone : filter isPidEmit (log (execution a ins)) = [] \/
            exists rs, filter isPidEmit (log (execution a ins))
                       = [Emit (ProcessId (spawn_pid (l_host a))) rs]).
  { destruct Hp as [[_ H] | [_ H]]; auto. }
  assert (Hpay : forall x, In x (log (execution a ins)) -> isPidEmit x = true ->
            exists rs, x = Emit (ProcessId (spawn_pid (l_host a))) rs).
  { intros x Hx Hi.
    assert (Hf : In x (filter isPidEmit (log (execution a ins))))
      by (apply filter_In; now split).
    destruct Hone as [E | [rs E]]; rewrite E in Hf; [destruct Hf|].
    destruct Hf as [<- | []]. now exists rs. }
  split; [apply execution_clock|]. split; [apply pid_silent_early|].
  split; [|split; [exact Hone|split; [exact Hpay|split]]].
  - intros Hclk. destruct Hp as [[Ht _] | [_ H]]; [|exact H].
    exfalso.
    assert (Hin : In (mkTimer 1 500 None SendProcessIdCb)
                     (pidTimers (execution a ins))) by (rewrite Ht; now left).
    apply filter_In in Hin as [Hin _].
    pose proof (proj1 (proj1 (Forall_forall _ _) Ha _ Hin)) as Hd. cbn in Hd. lia.
  - intros Hpos q rs Hin. destruct (Hpay _ Hin eq_refl) as [rs' E].
    injection E as -> _. exact Hpos.
  - destruct (exitSeals_execution a ins) as [Hs _].
    exact (silent_split _ Hs).
Qed.

(** ** The pty handle *)

Lemma invoke_pty (cb : Callback) (w : World) :
  _ptyProcess (this (invoke cb w)) = _ptyProcess (this w).
Proof.
  destruct cb; cbn; try reflexivity.
  unfold onTitlePoll. now destruct (String.eqb _ _).
Qed.

Lemma runTimer_pty (w : World) (h : positive) :
  _ptyProcess (this (runTimer w h)) = _ptyProcess (this w).
Proof.
  unfold runTimer. destruct (find (hasHandle h) (timers w)) as [t|]; [|reflexivity].
  rewrite invoke_pty. now destruct (repeat t).
Qed.

Lemma elapse_pty (dt : nat) (w : World) :
  _ptyProcess (this (Nat.iter dt tick w)) = _ptyProcess (this w).
Proof.
  apply (elapse_preserves (fun w' => _ptyProcess (this w') = _ptyProcess (this w)));
    [reflexivity|].
  intros w1 H1.
  apply (tick_preserves (fun w' => _ptyProcess (this w') = _ptyProcess (this w)));
    [exact H1|].
  intros w2 h H2. now rewrite runTimer_pty.
Qed.

Lemma step_pty (w : World) (i : Input) :
  _ptyProcess (this (step w i))
  = match i with
    | PtyProcess t => retitle t (_ptyProcess (this w))
    | _ => _ptyProcess (this w)
    end.
Proof.
  destruct i; cbn [step]; try reflexivity.
  - rewrite onPtyData_eq. cbv zeta.
    destruct (_closeTimeout (this w)); now rewrite ?queue_this.
  - unfold onPtyExit. now rewrite queue_this.
  - unfold shutdown. now rewrite queue_this.
  - now destruct st.
  - apply elapse_pty.
Qed.

(** X9.  The session spawns one process and keeps it: in every execution
    the handle is the one spawned by the constructor, with the executable
    and arguments of the launch configuration and with the working
    directory, environment and dimensions the constructor was given.  The
    dimensions are passed on as they are, without the clamping [resize]
    applies.  The terminal name is the base name of the executable on
    win32 and xterm-256color on every other platform. *)
Theorem spawned_as_configured (a : Launch) (ins : list Input) :
  let p := _ptyProcess (this (execution a ins)) in
  pid p = spawn_pid (l_host a) /\
  file p = executable (l_config a) /\
  argv p = args (l_config a) /\
  cwd (options p) = l_cwd a /\ env (options p) = l_env a /\
  cols (options p) = l_cols a /\ rows (options p) = l_rows a /\
  (os_platform (l_host a) = "win32"%string ->
   name (options p) = path_basename (l_host a) (executable (l_config a))) /\
  (os_platform (l_host a) <> "win32"%string ->
   name (options p) = "xterm-256color"%string).
Proof.
  cbv zeta.
  assert (H : exists t, _ptyProcess (this (execution a ins))
                        = retitle t (_ptyProcess (this (boot a)))).
  { unfold execution.
    apply (run_preserves (fun w => exists t, _ptyProcess (this w)
                                   = retitle t (_ptyProcess (this (boot a))))).
    - exists (spawn_process (l_host a)). reflexivity.
    - intros w i [t Ht]. rewrite step_pty. destruct i; try (now exists t).
      exists title. now rewrite Ht. }
  destruct H as [t ->]. cbn.
  repeat (split; [reflexivity|]). split.
  - intros E. apply String.eqb_eq in E. now rewrite E.
  - intros E. apply String.eqb_neq in E. now rewrite E.
Qed.

(** ** Published titles *)

Lemma invoke_titles (cb : Callback) (w : World) :
  let t := process (_ptyProcess (this w)) in
  (flat_map titled (log (invoke cb w)) = flat_map titled (log w) /\
   _currentTitle (this (invoke cb w)) = _currentTitle (this w))
  \/ (flat_map titled (log (invoke cb w)) = flat_map titled (log w) ++ [t] /\
      _currentTitle (this (invoke cb w)) = t /\
      _currentTitle (this w) <> t).
Proof.
  cbv zeta. destruct cb; cbn [invoke].
  - left. cbn. rewrite flat_map_app. cbn. now rewrite app_nil_r.
  - unfold onTitlePoll.
    destruct (String.eqb (_currentTitle (this w)) (process (_ptyProcess (this w))))
      eqn:E; [now left|].
    right. apply String.eqb_neq in E. cbn. rewrite flat_map_app. cbn.
    now split.
  - left. cbn. rewrite !flat_map_app. cbn. now rewrite !app_nil_r.
Qed.

Lemma runTimer_titles (w : World) (h : positive) :
  let t := process (_ptyProcess (this w)) in
  (flat_map titled (log (runTimer w h)) = flat_map titled (log w) /\
   _currentTitle (this (runTimer w h)) = _currentTitle (this w))
  \/ (flat_map titled (log (runTimer w h)) = flat_map titled (log w) ++ [t] /\
      _currentTitle (this (runTimer w h)) = t /\
      _currentTitle (this w) <> t).
Proof.
  cbv zeta. unfold runTimer.
  destruct (find (hasHandle h) (timers w)) as [t0|]; [|now left].
  destruct (repeat t0) as [p|].
  - exact (invoke_titles (callback t0) (reschedule h (clock w + p) w)).
  - exact (invoke_titles (callback t0) (clearTimeout h w)).
Qed.

Lemma noRepeat_snoc (l : list string) (a b : string) :
  noRepeat (l ++ [a]) = true -> a <> b -> noRepeat ((l ++ [a]) ++ [b]) = true.
Proof.
  intros H Hab. induction l as [|x l IH].
  - cbn. apply String.eqb_neq in Hab. now rewrite Hab.
  - destruct l as [|y l].
    + cbn in *. apply andb_prop in H as [H1 _]. rewrite H1. cbn.
      apply String.eqb_neq in Hab. now rewrite Hab.
    + cbn [app noRepeat] in *. apply andb_prop in H as [H1 H2].
      rewrite H1. cbn [andb]. now apply IH.
Qed.

Lemma step_title (w : World) (i : Input) :
  (forall dt, i <> Elapse dt) ->
  _currentTitle (this (step w i)) = _currentTitle (this w).
Proof.
  intros Hi. destruct i; cbn [step]; try reflexivity.
  - rewrite onPtyData_eq. cbv zeta.
    destruct (_closeTimeout (this w)); now rewrite ?queue_this.
  - unfold onPtyExit. now rewrite queue_this.
  - unfold shutdown. now rewrite queue_this.
  - now destruct st.
  - now destruct (Hi dt).
Qed.

(** X10.  The title stream starts with the title the process had when it
    was spawned, never carries the same title twice in a row, and its last
    title is the one stored in [_currentTitle]. *)
Theorem published_titles_do_not_repeat (a : Launch) (ins : list Input) :
  let w := execution a ins in
  let ts := flat_map titled (log w) in
  hd_error ts = Some (spawn_process (l_host a)) /\
  noRepeat ts = true /\
  exists l, ts = l ++ [_currentTitle (this w)].
Proof.
  cbv zeta.
  set (P := fun w : World =>
    hd_error (flat_map titled (log w)) = Some (spawn_process (l_host a)) /\
    noRepeat (flat_map titled (log w)) = true /\
    exists l, flat_map titled (log w) = l ++ [_currentTitle (this w)]).
  assert (Hrun : forall w h, P w -> P (runTimer w h)).
  { intros w h (H1 & H2 & l & H3).
    destruct (runTimer_titles w h) as [[E1 E2] | (E1 & E2 & E3)];
      unfold P; rewrite E1, E2.
    - split; [exact H1|]. split; [exact H2|]. now exists l.
    - rewrite H3 in *. split; [|split].
      + destruct l; exact H1.
      + now apply noRepeat_snoc.
      + now exists (l ++ [_currentTitle (this w)]). }
  unfold execution. apply (run_preserves P).
  - split; [reflexivity|]. split; [reflexivity|]. now exists [].
  - intros w i Hw. destruct i;
      try (unfold P; rewrite step_title, step_log, flat_map_app by discriminate;
           cbn [stepEmits flat_map fire titled app]; rewrite app_nil_r; exact Hw).
    cbn [step]. apply (elapse_preserves P); [exact Hw|].
    intros w1 H1. apply (tick_preserves P); [exact H1 | exact Hrun].
Qed.

(** ** How long a title change takes *)

Lemma tick_before_poll (w : World) (d : nat) :
  timersOk w -> titleOk w ->
  pollTimers w = [mkTimer 2 d (Some 200) TitlePollCb] ->
  S (clock w) < d ->
  pollTimers (tick w) = pollTimers w.
Proof.
  intros Hok Ht Hp Hlate.
  assert (Hin : In (mkTimer 2 d (Some 200) TitlePollCb) (timers w)).
  { assert (H : In (mkTimer 2 d (Some 200) TitlePollCb) (pollTimers w))
      by (rewrite Hp; now left).
    now apply filter_In in H. }
  unfold tick.
  destruct (fold_pollCalm
              (map handle (filter (isDue (clock (advance w))) (timers (advance w))))
              (advance w)) as (Hc & _).
  - now apply timersOk_advance.
  - apply (titleOk_same w _ Ht); [reflexivity | cbn; lia].
  - apply Forall_forall. intros h Hh E. subst h.
    apply in_map_iff in Hh as (t0 & Hh0 & Hi0).
    apply filter_In in Hi0 as [Hi0 Hd0]. cbn in Hi0, Hd0.
    assert (E : t0 = mkTimer 2 d (Some 200) TitlePollCb)
      by (apply (handle_inj _ _ _ (ok_nodup _ Hok) Hi0 Hin); exact Hh0).
    subst t0. unfold isDue in Hd0. apply Nat.leb_le in Hd0. cbn in Hd0. lia.
  - exact (pc_poll _ _ Hc).
Qed.

(** Until the poll has run it stays where it is; once it has run the
    stored title is the title of the pty, and later polls keep it so. *)
Lemma poll_catches_up (p : Z) (w : World) (d k : nat) :
  sessionOk p w ->
  pollTimers w = [mkTimer 2 d (Some 200) TitlePollCb] ->
  let wk := Nat.iter k tick w in
  (clock w + k < d /\ pollTimers wk = pollTimers w)
  \/ _currentTitle (this wk) = process (_ptyProcess (this w)).
Proof.
  intros Hs Hp. cbv zeta. induction k as [|k IH].
  - simpl. destruct (Nat.lt_ge_cases (clock w + 0) d) as [H | H]; [now left|].
    exfalso. destruct Hs as [_ _ _ Ha].
    assert (Hin : In (mkTimer 2 d (Some 200) TitlePollCb) (pollTimers w))
      by (rewrite Hp; now left).
    apply filter_In in Hin as [Hin _].
    pose proof (proj1 (proj1 (Forall_forall _ _) Ha _ Hin)) as Hd. cbn in Hd. lia.
  - simpl. set (wk := Nat.iter k tick w) in *.
    assert (Hsk : sessionOk p wk) by exact (sessionOk_step p w (Elapse k) Hs).
    assert (Hck : clock wk = clock w + k) by apply elapse_clock.
    assert (Hyk : _ptyProcess (this wk) = _ptyProcess (this w)) by apply elapse_pty.
    destruct Hsk as [Hok _ Ht Ha].
    destruct IH as [[Hlt Hpk] | Hsync].
    + rewrite Hp in Hpk.
      destruct (tick_poll wk d Hok Ht Hpk) as [Hwait Hdue].
      destruct (Nat.eq_dec d (S (clock wk))) as [E | E].
      * right. destruct (Hdue E) as [Hcur _]. now rewrite Hcur, Hyk.
      * left. split; [lia|].
        rewrite (tick_before_poll wk d Hok Ht Hpk) by lia.
        now rewrite Hpk, Hp.
    + right. destruct Ht as (dk & Hpk & Hdk).
      assert (Hak : clock wk < dk).
      { assert (Hin : In (mkTimer 2 dk (Some 200) TitlePollCb) (pollTimers wk))
          by (rewrite Hpk; now left).
        apply filter_In in Hin as [Hin _].
        exact (proj1 (proj1 (Forall_forall _ _) Ha _ Hin)). }
      assert (Ht' : titleOk wk) by (exists dk; now split).
      destruct (tick_poll wk dk Hok Ht' Hpk) as [Hwait Hdue].
      destruct (Nat.eq_dec dk (S (clock wk))) as [E | E].
      * destruct (Hdue E) as [Hcur _]. now rewrite Hcur, Hyk.
      * destruct Hwait as [_ Hcur]; [lia|]. now rewrite Hcur.
Qed.

(** X11.  A change of the process title is picked up within one polling
    period: whatever the state of the session, once 200 time units or more
    have passed without the title changing again, the stored title is the
    title of the pty. *)
Theorem title_is_current_after_one_period
    (a : Launch) (ins : list Input) (dt : nat) :
  200 <= dt ->
  let w := execution a ins in
  _currentTitle (this (step w (Elapse dt))) = process (_ptyProcess (this w)).
Proof.
  intros Hdt w.
  pose proof (sessionOk_execution a ins) as Hs. fold w in Hs.
  destruct (so_title _ _ Hs) as (d & Hp & Hd).
  destruct (poll_catches_up _ w d dt Hs Hp) as [[Hlt _] | H]; [lia | exact H].
Qed.

(** ** Restarting the close timeout *)

Lemma exitPath_app (l1 l2 : list Effect) :
  exitPath (l1 ++ l2) = exitPath l1 ++ exitPath l2.
Proof. apply filter_app. Qed.

Lemma trigger_arms (w : World) (i : Input) :
  timersOk w -> triggers i = true ->
  timersOk (step w i) /\ armed (step w i) /\
  exitPath (log (step w i)) = exitPath (log w) /\
  _onProcessExit (this (step w i)) = _onProcessExit (this w).
Proof.
  intros Hok Hi. split; [now apply timersOk_step|].
  destruct i; try discriminate; cbn [step].
  - unfold onPtyExit. rewrite queue_log, queue_this.
    split; [|now split]. apply queue_armed. now apply (timersOk_same w).
  - unfold shutdown. rewrite queue_log, queue_this.
    split; [|now split]. now apply queue_armed.
Qed.

Lemma rearm_step (w : World) (i : Input) (h : positive) :
  timersOk w -> _closeTimeout (this w) = Some h -> rearms i = true ->
  timersOk (step w i) /\ armed (step w i) /\
  exitPath (log (step w i)) = exitPath (log w) /\
  _onProcessExit (this (step w i)) = _onProcessExit (this w).
Proof.
  intros Hok Hs Hi.
  destruct i; try discriminate; try (now apply trigger_arms).
  split; [now apply timersOk_step|].
  cbn [step]. rewrite onPtyData_eq. cbv zeta. rewrite Hs.
  rewrite queue_log, queue_this.
  split; [|split; [|reflexivity]].
  - apply queue_armed. now apply (timersOk_same w).
  - now apply exitPath_snoc_other.
Qed.

Lemma codeAfter_cons (o : option Z) (g : nat) (i : Input) (evs : list (nat * Input)) :
  codeAfter o ((g, i) :: evs)
  = codeAfter (match i with PtyExit c => Some c | _ => o end) evs.
Proof. reflexivity. Qed.

Lemma spaced_rearms (evs : list (nat * Input)) (w : World) :
  timersOk w -> armed w ->
  Forall (fun ge => fst ge < 250 /\ rearms (snd ge) = true) evs ->
  let w' := run (spaced evs) w in
  timersOk w' /\ armed w' /\
  exitPath (log w') = exitPath (log w) /\
  _onProcessExit (this w') = _onProcessExit (this w) /\
  _exitCode (this w') = codeAfter (_exitCode (this w)) evs.
Proof.
  revert w. induction evs as [|[g i] evs IH]; intros w Hok Harm Hev; cbv zeta.
  - cbn. auto.
  - inversion Hev as [|? ? [Hg Hi] Hrest]; subst. cbn in Hg, Hi.
    change (run (spaced ((g, i) :: evs)) w)
      with (run (spaced evs) (step (Nat.iter g tick w) i)).
    destruct (armed_stored w Hok Harm) as [h0 Hs0].
    destruct Harm as [h Hct].
    destruct (elapse_early g w Hok) as [Hc Ho].
    { intros t Ht. rewrite Hct in Ht. destruct Ht as [<- | []]. cbn. lia. }
    set (w1 := Nat.iter g tick w) in *.
    assert (Hs1 : _closeTimeout (this w1) = Some h0)
      by (rewrite (calm_stored _ _ Hc); exact Hs0).
    destruct (rearm_step w1 i h0 Ho Hs1 Hi) as (R1 & R2 & R3 & R4).
    destruct (IH (step w1 i) R1 R2 Hrest) as (I1 & I2 & I3 & I4 & I5).
    split; [exact I1|]. split; [exact I2|].
    rewrite I3, I4, I5, R3, R4, step_exitCode, codeAfter_cons.
    rewrite <- exitPath_core, (calm_core _ _ Hc), exitPath_core.
    rewrite (calm_exit _ _ Hc), (calm_code _ _ Hc). now cbn.
Qed.

(** X12.  Whatever starts the close timeout, every later chunk of output,
    exit report or call of [shutdown] that arrives less than 250 units
    after the previous one restarts it.  Through such a sequence the pty
    is not killed and no exit event is emitted; both happen when 250 units
    have passed in silence, and the exit event carries the code of the
    last exit report, or the code stored before if there was none. *)
Theorem close_waits_for_silence
    (a : Launch) (ins : list Input) (first : Input) (evs : list (nat * Input)) :
  triggers first = true ->
  Forall (fun ge => fst ge < 250 /\ rearms (snd ge) = true) evs ->
  let w := execution a ins in
  let wb := run (first :: spaced evs) w in
  (forall k, k < 250 ->
     exitPath (log (step wb (Elapse k))) = exitPath (log w)) /\
  exitPath (log (step wb (Elapse 250)))
  = exitPath (log w)
    ++ closing (codeAfter (_exitCode (this (step w first))) evs,
                receiversOf (_onProcessExit (this w))).
Proof.
  intros Hf Hev w wb.
  pose proof (timersOk_execution a ins) as Hok. fold w in Hok.
  destruct (trigger_arms w first Hok Hf) as (T1 & T2 & T3 & T4).
  change wb with (run (spaced evs) (step w first)).
  destruct (spaced_rearms evs (step w first) T1 T2 Hev)
    as (S1 & [h S2] & S3 & S4 & S5).
  set (ws := run (spaced evs) (step w first)) in *.
  split.
  - intros k Hk. change (step ws (Elapse k)) with (Nat.iter k tick ws).
    destruct (elapse_early k ws S1) as [Hc _].
    { intros t Ht. rewrite S2 in Ht. destruct Ht as [<- | []]. cbn. lia. }
    rewrite <- exitPath_core, (calm_core _ _ Hc), exitPath_core.
    change (log (later k ws)) with (log ws). now rewrite S3, T3.
  - change (step ws (Elapse 250)) with (Nat.iter (S 249) tick ws).
    destruct (elapse_fire 249 ws _ S1 S2) as (F1 & _); [cbn; lia|].
    rewrite <- exitPath_core, F1, exitPath_app, exitPath_core.
    now rewrite S3, S4, S5, T3, T4.
Qed.

(** ** The stored handle is never reset *)

Lemma stored_stays (w : World) (i : Input) (h : positive) :
  _closeTimeout (this w) = Some h ->
  exists h', _closeTimeout (this (step w i)) = Some h'.
Proof.
  intros Hs. destruct i; cbn [step]; eauto.
  - rewrite onPtyData_eq. cbv zeta. rewrite Hs, queue_this. cbn. eauto.
  - unfold onPtyExit. rewrite queue_this. cbn. eauto.
  - unfold shutdown. rewrite queue_this. cbn. eauto.
  - destruct st; cbn; eauto.
  - apply (elapse_preserves
             (fun w' => exists h', _closeTimeout (this w') = Some h')); [eauto|].
    intros w1 H1.
    apply (tick_preserves
             (fun w' => exists h', _closeTimeout (this w') = Some h')); [exact H1|].
    intros w2 h2 [h' H2]. exists h'. unfold runTimer.
    destruct (find (hasHandle h2) (timers w2)) as [t|]; [|exact H2].
    destruct (invoke_frame (callback t)
                (match repeat t with
                 | Some p => reschedule h2 (clock w2 + p) w2
                 | None => clearTimeout h2 w2
                 end)) as (_ & _ & _ & -> & _).
    now destruct (repeat t).
Qed.

Lemma stored_after_trigger (ins : list Input) (w : World) :
  existsb triggers ins = true \/ (exists h, _closeTimeout (this w) = Some h) ->
  exists h, _closeTimeout (this (run ins w)) = Some h.
Proof.
  revert w. induction ins as [|i ins IH]; intros w H.
  - destruct H as [H | H]; [discriminate | exact H].
  - change (run (i :: ins) w) with (run ins (step w i)). apply IH.
    destruct H as [H | [h H]].
    + cbn [existsb] in H. apply orb_prop in H as [H | H]; [|now left].
      right. destruct i; try discriminate; cbn [step].
      * unfold onPtyExit. rewrite queue_this. cbn. eauto.
      * unfold shutdown. rewrite queue_this. cbn. eauto.
    + right. now apply (stored_stays w i h).
Qed.

(** X13.  The session never forgets that it was asked to close.  Once the
    pty has reported an exit or [shutdown] has been called, every chunk of
    output queues a close timeout for 250 units later, also when the
    session has closed long ago; if nothing else arrives, the pty is then
    killed again and an exit event is emitted again, to the subscribers
    the exit stream has at that time. *)
Theorem output_after_close_request_requeues
    (a : Launch) (ins : list Input) (d : string) :
  existsb triggers ins = true ->
  let w := execution a ins in
  armed (step w (PtyData d)) /\
  exitPath (log (run [PtyData d; Elapse 250] w))
  = exitPath (log w)
    ++ closing (_exitCode (this w), receiversOf (_onProcessExit (this w))).
Proof.
  intros Ht w.
  pose proof (timersOk_execution a ins) as Hok. fold w in Hok.
  destruct (stored_after_trigger ins (boot a) (or_introl Ht)) as [h Hs].
  fold (execution a ins) in Hs. fold w in Hs.
  destruct (rearm_step w (PtyData d) h Hok Hs eq_refl) as (R1 & [h' R2] & R3 & R4).
  split; [now exists h'|].
  change (run [PtyData d; Elapse 250] w)
    with (Nat.iter (S 249) tick (step w (PtyData d))).
  destruct (elapse_fire 249 (step w (PtyData d)) _ R1 R2) as (F1 & _); [cbn; lia|].
  rewrite <- exitPath_core, F1, exitPath_app, exitPath_core, R3, R4.
  now rewrite step_exitCode.
Qed.

(** ** Where the further theorems apply *)

Lemma pid_announced_once_witness :
  (clock (execution launch0 (attach ++ [CallInput "ls"; Elapse 499])) < 500 /\
   filter isPidEmit
     (log (execution launch0 (attach ++ [CallInput "ls"; Elapse 499]))) = []) /\
  (500 <= clock (execution launch0 (attach ++ [CallInput "ls"; Elapse 500])) /\
   exists rs,
     filter isPidEmit
       (log (execution launch0 (attach ++ [CallInput "ls"; Elapse 500])))
     = [Emit (ProcessId 4242) rs]) /\
  ((0 < 4242)%Z /\
   In (Emit (ProcessId 4242) [3])
      (log (execution launch0 (attach ++ [CallInput "ls"; Elapse 500]))) /\
   (0 < 4242)%Z).
Proof.
  assert (H1 : clock (execution launch0 (attach ++ [CallInput "ls"; Elapse 499]))
               < 500) by (vm_compute; lia).
  assert (H2 : 500 <= clock (execution launch0
                               (attach ++ [CallInput "ls"; Elapse 500])))
    by (vm_compute; lia).
  assert (H3 : (0 < 4242)%Z) by reflexivity.
  assert (H4 : In (Emit (ProcessId 4242) [3])
                 (log (execution launch0 (attach ++ [CallInput "ls"; Elapse 500]))))
    by (vm_compute; right; right; left; reflexivity).
  split; [split; [exact H1|]|split; [split; [exact H2|]|split; [exact H3|split; [exact H4|]]]].
  - exact (proj1 (proj2 (pid_announced_once launch0
                           (attach ++ [CallInput "ls"; Elapse 499]))) H1).
  - exact (proj1 (proj2 (proj2 (pid_announced_once launch0
                           (attach ++ [CallInput "ls"; Elapse 500])))) H2).
  - exact (proj1 (proj2 (proj2 (proj2 (proj2 (proj2
             (pid_announced_once launch0
                (attach ++ [CallInput "ls"; Elapse 500])))))))
             H3 4242%Z [3] H4).
Defined.

Lemma calls_always_reach_the_pty_witness :
  userCall (CallResize 0 24) = true /\
  List.length
    (log (worldAfter
            (call killedPty
               (execution launch0 (attach ++ [CallShutdown; Elapse 250]))
               (CallResize 0 24))))
  = S (List.length
         (log (execution launch0 (attach ++ [CallShutdown; Elapse 250])))).
Proof.
  split; [reflexivity|].
  exact (proj1 (proj2 (proj2
           (calls_always_reach_the_pty killedPty launch0
              (attach ++ [CallShutdown; Elapse 250]) [] "ls" 0 24)))
           (CallResize 0 24) eq_refl).
Defined.

Lemma exit_event_carries_last_reported_code_witness :
  (existsb reportsExit (attach ++ [CallShutdown; Elapse 250]) = false /\
   In None (flat_map exitPayload
              (log (execution launch0 (attach ++ [CallShutdown; Elapse 250])))) /\
   @None Z = None) /\
  (In (Some 5%Z)
      (flat_map exitPayload
         (log (step (execution launch0
                       (attach ++ [PtyExit 3; Elapse 100; PtyExit 5]))
                    (Elapse 250)))) /\
   forall c,
     In c (flat_map exitPayload
             (log (step (execution launch0
                           (attach ++ [PtyExit 3; Elapse 100; PtyExit 5]))
                        (Elapse 250)))) ->
     c = Some 5%Z).
Proof.
  assert (H1 : existsb reportsExit (attach ++ [CallShutdown; Elapse 250]) = false)
    by reflexivity.
  assert (H2 : In None (flat_map exitPayload
             (log (execution launch0 (attach ++ [CallShutdown; Elapse 250])))))
    by (vm_compute; left; reflexivity).
  assert (H3 : In (Some 5%Z)
      (flat_map exitPayload
         (log (step (execution launch0
                       (attach ++ [PtyExit 3; Elapse 100; PtyExit 5]))
                    (Elapse 250)))))
    by (vm_compute; left; reflexivity).
  assert (H4 : flat_map exitPayload
                 (log (execution launch0
                         (attach ++ [PtyExit 3; Elapse 100; PtyExit 5]))) = [])
    by (vm_compute; reflexivity).
  split; [split; [exact H1|split; [exact H2|]]|split; [exact H3|]].
  - exact (proj2 (proj2 (proj2 (exit_event_carries_last_reported_code launch0
                           (attach ++ [CallShutdown; Elapse 250])))) H1 None H2).
  - destruct (proj1 (proj2 (exit_event_carries_last_reported_code launch0
                (attach ++ [PtyExit 3; Elapse 100; PtyExit 5]))) (Elapse 250))
      as (new & E & F & _).
    intros c Hc. rewrite E, H4 in Hc.
    exact (proj1 (Forall_forall _ new) F c Hc).
Defined.

Lemma no_close_without_exit_or_shutdown_witness :
  forallb (fun i => negb (triggers i))
    (attach ++ [PtyData "$ "; Elapse 1000; CallInput "ls"]) = true /\
  exitPath (log (execution launch0
                   (attach ++ [PtyData "$ "; Elapse 1000; CallInput "ls"]))) = [].
Proof.
  assert (H : forallb (fun i => negb (triggers i))
                (attach ++ [PtyData "$ "; Elapse 1000; CallInput "ls"]) = true)
    by reflexivity.
  split; [exact H|].
  exact (proj2 (proj2 (no_close_without_exit_or_shutdown launch0
                         (attach ++ [PtyData "$ "; Elapse 1000; CallInput "ls"]) H))).
Defined.

Lemma timer_queue_is_bounded_witness :
  let w := execution launch0 (attach ++ [CallShutdown; Elapse 100]) in
  In (mkTimer 3 250 None CloseCb) (closeTimers w) /\
  _closeTimeout (this w) = Some 3%positive.
Proof.
  intros w.
  assert (H : In (mkTimer 3 250 None CloseCb) (closeTimers w))
    by (vm_compute; now left).
  split; [exact H|].
  exact (proj1 (proj2 (proj2 (timer_queue_is_bounded launch0
                                (attach ++ [CallShutdown; Elapse 100]))) _ H)).
Defined.

Lemma pid_not_announced_before_delay_witness :
  duration (attach ++ [Elapse 499]) < 500 /\
  filter isPidEmit (log (execution launch0 (attach ++ [Elapse 499]))) = [].
Proof.
  assert (H : duration (attach ++ [Elapse 499]) < 500) by (simpl; lia).
  split; [exact H|].
  exact (pid_not_announced_before_delay launch0 (attach ++ [Elapse 499]) H).
Defined.

Lemma spawned_as_configured_witness :
  os_platform (l_host launch0) <> "win32"%string /\
  name (options (_ptyProcess (this (execution launch0 attach))))
  = "xterm-256color"%string.
Proof.
  assert (H : os_platform (l_host launch0) <> "win32"%string) by discriminate.
  split; [exact H|].
  exact (proj2 (proj2 (proj2 (proj2 (proj2 (proj2 (proj2 (proj2
    (spawned_as_configured launch0 attach)))))))) H).
Defined.

Lemma title_is_current_after_one_period_witness :
  200 <= 200 /\
  _currentTitle (this (step (execution launch0 (attach ++ [PtyProcess "vim"]))
                            (Elapse 200)))
  = process (_ptyProcess (this (execution launch0 (attach ++ [PtyProcess "vim"])))).
Proof.
  assert (H : 200 <= 200) by lia.
  split; [exact H|].
  exact (title_is_current_after_one_period launch0
           (attach ++ [PtyProcess "vim"]) 200 H).
Defined.

Lemma close_waits_for_silence_witness :
  triggers CallShutdown = true /\
  Forall (fun ge => fst ge < 250 /\ rearms (snd ge) = true)
    [(100, PtyData "a"); (200, PtyExit 7); (249, CallShutdown)] /\
  exitPath (log (step (run (CallShutdown
                              :: spaced [(100, PtyData "a"); (200, PtyExit 7);
                                         (249, CallShutdown)])
                           (execution launch0 attach))
                      (Elapse 250)))
  = exitPath (log (execution launch0 attach))
    ++ closing (codeAfter (_exitCode (this (step (execution launch0 attach)
                                                  CallShutdown)))
                  [(100, PtyData "a"); (200, PtyExit 7); (249, CallShutdown)],
                receiversOf (_onProcessExit (this (execution launch0 attach)))).
Proof.
  assert (H1 : triggers CallShutdown = true) by reflexivity.
  assert (H2 : Forall (fun ge => fst ge < 250 /\ rearms (snd ge) = true)
                 [(100, PtyData "a"); (200, PtyExit 7); (249, CallShutdown)])
    by (repeat constructor; simpl; lia).
  split; [exact H1|]. split; [exact H2|].
  exact (proj2 (close_waits_for_silence launch0 attach CallShutdown
                  [(100, PtyData "a"); (200, PtyExit 7); (249, CallShutdown)]
                  H1 H2)).
Defined.

Lemma output_after_close_request_requeues_witness :
  existsb triggers (attach ++ [CallShutdown; Elapse 1000]) = true /\
  armed (step (execution launch0 (attach ++ [CallShutdown; Elapse 1000]))
              (PtyData "late")).
Proof.
  assert (H : existsb triggers (attach ++ [CallShutdown; Elapse 1000]) = true)
    by reflexivity.
  split; [exact H|].
  exact (proj1 (output_after_close_request_requeues launch0
                  (attach ++ [CallShutdown; Elapse 1000]) "late" H)).
Defined.
